(** * parse-proxy-response: the CONNECT response reader of https-proxy-agent

  A shallow embedding of
  [packages/https-proxy-agent/src/parse-proxy-response.ts] and the
  properties of its header parser and of its stream protocol.

  Layout: the JavaScript primitives the source calls ([Text], [Buf],
  [Num]), the header object ([Headers]), the reader itself ([Reader]),
  then the lemmas and the theorems. *)

From Stdlib Require Import ZArith Ascii String List Lia Bool.
From Stdlib Require Import Init.Byte.
From stdpp Require Import gmap strings list.

Local Open Scope Z_scope.

(* ===================================================================== *)
(** ** JavaScript strings *)
(* ===================================================================== *)

Module Text.

Definition CR : ascii := "013"%char.
Definition LF : ascii := "010"%char.
Definition CRLF : string := String CR (String LF "").

(** [s.length] *)
Definition len (s : string) : nat := String.length s.

Fixpoint take (n : nat) (s : string) : string :=
  match n, s with
  | S k, String c r => String c (take k r)
  | _, _ => ""
  end.

Fixpoint drop (n : nat) (s : string) : string :=
  match n, s with
  | S k, String _ r => drop k r
  | _, _ => s
  end.

(** Relative index of [slice]: negative counts from the end, everything
    is clamped to [0 .. length]. *)
Definition clamp (length : nat) (k : Z) : nat :=
  if k <? 0 then Z.to_nat (Z.max (Z.of_nat length + k) 0)
  else Nat.min (Z.to_nat k) length.

(** [s.slice(start, end)]; [end_ = None] is the one-argument call. *)
Definition slice (s : string) (start : Z) (end_ : option Z) : string :=
  let from := clamp (len s) start in
  let to := match end_ with
            | None => len s
            | Some e => clamp (len s) e
            end in
  take (to - from) (drop from s).

(** [s.startsWith(p)] *)
Fixpoint startsWith (p s : string) : bool :=
  match p, s with
  | "", _ => true
  | String a p', String b s' => if Ascii.eqb a b then startsWith p' s' else false
  | String _ _, "" => false
  end.

(** [s.indexOf(needle)]: the first position where [needle] occurs, -1 when
    it does not occur. *)
Fixpoint indexOf (s needle : string) : Z :=
  if startsWith needle s then 0
  else match s with
       | "" => -1
       | String _ r =>
           let k := indexOf r needle in
           if k =? -1 then -1 else k + 1
       end.

(** Puts [c] in front of the first piece. *)
Definition cons_first (c : ascii) (pieces : list string) : list string :=
  match pieces with
  | [] => [String c ""]
  | p :: ps => String c p :: ps
  end.

(** The scan of [split]: [skip] counts the characters of a separator just
    matched that are still to be passed over. *)
Fixpoint split_scan (sep : string) (skip : nat) (s : string) : list string :=
  match s with
  | "" => [""]
  | String c r =>
      match skip with
      | S k => split_scan sep k r
      | O =>
          if startsWith sep s
          then "" :: split_scan sep (len sep - 1) r
          else cons_first c (split_scan sep 0 r)
      end
  end.

(** [s.split(sep)] for a string separator: the pieces between the
    occurrences of [sep], found left to right without overlap; with the
    empty separator, the characters of [s]. *)
Definition split (s sep : string) : list string :=
  match sep with
  | "" => (λ c, String c "") <$> list_ascii_of_string s
  | _ => split_scan sep 0 s
  end.

(** [pieces.join(sep)] *)
Fixpoint join (pieces : list string) (sep : string) : string :=
  match pieces with
  | [] => ""
  | [p] => p
  | p :: ps => p +:+ sep +:+ join ps sep
  end.

Definition lower (c : ascii) : ascii :=
  let n := nat_of_ascii c in
  if (65 <=? n)%nat && (n <=? 90)%nat then ascii_of_nat (n + 32) else c.

(** [s.toLowerCase()], on text whose characters are all below 128. *)
Fixpoint toLowerCase (s : string) : string :=
  match s with
  | "" => ""
  | String c r => String (lower c) (toLowerCase r)
  end.

(** White space and line terminators below 128: TAB, LF, VT, FF, CR and
    the space. *)
Definition isWhiteSpace (c : ascii) : bool :=
  let n := nat_of_ascii c in
  ((9 <=? n)%nat && (n <=? 13)%nat) || (n =? 32)%nat.

(** [s.trimStart()] *)
Fixpoint trimStart (s : string) : string :=
  match s with
  | String c r => if isWhiteSpace c then trimStart r else s
  | "" => ""
  end.

Fixpoint rev_acc (s acc : string) : string :=
  match s with
  | "" => acc
  | String c r => rev_acc r (String c acc)
  end.

Definition trimEnd (s : string) : string :=
  rev_acc (trimStart (rev_acc s "")) "".

(** [s.trim()] *)
Definition trim (s : string) : string := trimEnd (trimStart s).

(** [c] occurs in [s]. *)
Fixpoint has (c : ascii) (s : string) : bool :=
  match s with
  | "" => false
  | String a r => Ascii.eqb a c || has c r
  end.

(** Every character of [s] satisfies [p]. *)
Fixpoint all (p : ascii -> bool) (s : string) : bool :=
  match s with
  | "" => true
  | String a r => p a && all p r
  end.

(** The character is below 128. *)
Definition is7bit (c : ascii) : bool :=
  match c with
  | Ascii _ _ _ _ _ _ _ b7 => negb b7
  end.

End Text.

(* ===================================================================== *)
(** ** Node buffers *)
(* ===================================================================== *)

Module Buf.

(** A [Buffer]: raw bytes. *)
Definition Buffer : Type := list byte.

(** The bytes of a text whose characters are all below 128 (where UTF-8
    and the single-byte encodings agree). *)
Definition of_string (s : string) : Buffer := list_byte_of_string s.

Fixpoint startsWith (p b : list byte) : bool :=
  match p, b with
  | [], _ => true
  | x :: p', y :: b' => if Byte.eqb x y then startsWith p' b' else false
  | _ :: _, [] => false
  end.

Fixpoint index_bytes (b needle : list byte) : Z :=
  if startsWith needle b then 0
  else match b with
       | [] => -1
       | _ :: r =>
           let k := index_bytes r needle in
           if k =? -1 then -1 else k + 1
       end.

(** [buf.indexOf(value)] for a string [value]: the offset of the first
    occurrence of its bytes, -1 when there is none. *)
Definition indexOf (b : Buffer) (value : string) : Z :=
  index_bytes b (of_string value).

(** [Buffer.concat(list, totalLength)]: the buffers of [list] one after
    the other, cut or zero-filled to [totalLength] bytes. *)
Definition concat (list : list Buffer) (totalLength : nat) : Buffer :=
  let all := List.concat list in
  take totalLength (all ++ repeat x00 (totalLength - length all)).

(** Decoding one byte as ['ascii']: the high bit is dropped. *)
Definition ascii7 (x : byte) : ascii :=
  match ascii_of_byte x with
  | Ascii b0 b1 b2 b3 b4 b5 b6 _ => Ascii b0 b1 b2 b3 b4 b5 b6 false
  end.

(** [buf.toString('ascii')] *)
Fixpoint toString_ascii (b : Buffer) : string :=
  match b with
  | [] => ""
  | x :: r => String (ascii7 x) (toString_ascii r)
  end.

End Buf.

(* ===================================================================== *)
(** ** Numeric coercion of a string: the unary [+] *)
(* ===================================================================== *)

Module Num.

(** The numbers the reader can produce as a status code.  A literal made
    of digits, with a sign or a radix prefix at most, and of magnitude at
    most 2^53 is held exactly by a double and is tracked as [Int]; any
    other numeric literal is kept as [Float] with its text, its double not
    being computed here. *)
Inductive number : Type :=
  | NaN
  | Int (z : Z)
  | Float (literal : string).

Definition inRange (lo hi : nat) (c : ascii) : bool :=
  let n := nat_of_ascii c in (lo <=? n)%nat && (n <=? hi)%nat.

Definition isDigit : ascii -> bool := inRange 48 57.
Definition isBinary : ascii -> bool := inRange 48 49.
Definition isOctal : ascii -> bool := inRange 48 55.
Definition isHex (c : ascii) : bool :=
  isDigit c || inRange 65 70 c || inRange 97 102 c.

(** Value of a digit in base up to 16. *)
Definition digit (c : ascii) : Z :=
  let n := Z.of_nat (nat_of_ascii c) in
  if isDigit c then n - 48
  else if inRange 65 70 c then n - 55
  else n - 87.

Fixpoint value_from (base acc : Z) (s : string) : Z :=
  match s with
  | "" => acc
  | String c r => value_from base (acc * base + digit c) r
  end.

Definition value (base : Z) (s : string) : Z := value_from base 0 s.

(** One or more characters, all satisfying [p]. *)
Definition some (p : ascii -> bool) (s : string) : bool :=
  match s with
  | "" => false
  | _ => Text.all p s
  end.

Fixpoint skip (p : ascii -> bool) (s : string) : string :=
  match s with
  | String c r => if p c then skip p r else s
  | "" => ""
  end.

Definition unsign (s : string) : string :=
  match s with
  | String "+" r | String "-" r => r
  | _ => s
  end.

(** Nothing, or an exponent part: [e] or [E], an optional sign, digits. *)
Definition exponentOpt (s : string) : bool :=
  match s with
  | "" => true
  | String "e" r | String "E" r => some isDigit (unsign r)
  | _ => false
  end.

(** An unsigned decimal literal of the string-to-number grammar. *)
Definition unsignedDecimal (s : string) : bool :=
  if String.eqb s "Infinity" then true
  else
    let hasInt := negb (String.eqb (skip isDigit s) s) in
    match skip isDigit s with
    | String "." r =>
        let hasFrac := negb (String.eqb (skip isDigit r) r) in
        (hasInt || hasFrac) && exponentOpt (skip isDigit r)
    | r => hasInt && exponentOpt r
    end.

(** A literal with a radix prefix: the digits after it and their base. *)
Definition radix (s : string) : option (Z * string) :=
  match s with
  | String "0" (String "x" r) | String "0" (String "X" r) =>
      if some isHex r then Some (16, r) else None
  | String "0" (String "o" r) | String "0" (String "O" r) =>
      if some isOctal r then Some (8, r) else None
  | String "0" (String "b" r) | String "0" (String "B" r) =>
      if some isBinary r then Some (2, r) else None
  | _ => None
  end.

(** The trimmed text is a numeric literal: nothing at all, decimal digits
    alone, a literal with a radix prefix, or a signed decimal literal. *)
Definition isNumeric (s : string) : bool :=
  let t := Text.trim s in
  match t with
  | "" => true
  | _ =>
      some isDigit t ||
      match radix t with
      | Some _ => true
      | None => unsignedDecimal (unsign t)
      end
  end.

Definition exact (z : Z) (literal : string) : number :=
  if Z.abs z <=? 2 ^ 53 then Int z else Float literal.

(** [+s] for a string [s]. *)
Definition ofString (s : string) : number :=
  let t := Text.trim s in
  if negb (isNumeric s) then NaN
  else match t with
       | "" => Int 0
       | _ =>
           if some isDigit t then exact (value 10 t) t
           else match radix t with
                | Some (base, r) => exact (value base r) t
                | None =>
                    match t with
                    | String "-" r =>
                        if some isDigit r && negb (value 10 r =? 0)
                        then exact (- value 10 r) t else Float t
                    | String "+" r =>
                        if some isDigit r then exact (value 10 r) t else Float t
                    | _ => Float t
                    end
                end
       end.

(** [+x] where [x] is a string or [undefined] (the element of an array at
    an index past its end). *)
Definition coerce (x : option string) : number :=
  match x with
  | None => NaN
  | Some s => ofString s
  end.

End Num.

(* ===================================================================== *)
(** ** The headers object *)
(* ===================================================================== *)

Module Headers.

(** A header holds one string, or an array of strings once its name has
    been seen again. *)
Inductive value : Type :=
  | Str (s : string)
  | Arr (items : list string).

(** The own properties of the object literal [{}] the reader fills. *)
Abbreviation t := (gmap string value).

(** The one name an object literal does not store: on [{}], [__proto__]
    is the accessor inherited from [Object.prototype] (ECMAScript, annex
    B, [Object.prototype.__proto__]).  Reading it gives the prototype
    object, which is neither a string nor an array; its setter returns
    without effect when the value assigned is not an object or [null], so
    assigning a string stores nothing.  Every other name, [constructor]
    included, becomes an own property on assignment. *)
Definition protoKey : string := "__proto__".

(** What [typeof current === 'string'] and [Array.isArray(current)] tell
    apart in [current = headers[key]]. *)
Inductive current : Type :=
  | IsString (s : string)
  | IsArray (items : list string)
  | Neither.

(** [headers[key]], as far as the two tests see it. *)
Definition get (headers : t) (key : string) : current :=
  match headers !! key with
  | Some (Str s) => IsString s
  | Some (Arr items) => IsArray items
  | None => Neither
  end.

(** [headers[key] = v] *)
Definition set (headers : t) (key : string) (v : value) : t :=
  if String.eqb key protoKey then headers else <[key := v]> headers.

(** Lines 91 to 98: the three-way update for one header. *)
Definition add (headers : t) (key val : string) : t :=
  match get headers key with
  | IsString cur => set headers key (Arr [cur; val])
  | IsArray cur => <[key := Arr (cur ++ [val])]> headers
  | Neither => set headers key (Str val)
  end.

End Headers.

(* ===================================================================== *)
(** ** The reader *)
(* ===================================================================== *)

Module Reader.

Import Buf.

Record ConnectResponse : Type := mkConnect {
  statusCode : Num.number;
  statusText : string;
  headers : Headers.t
}.

(** The value a rejection carries: an [Error] the reader makes with
    [new Error(message)], or the object the stream gave to its ['error']
    listeners, passed on as it is. *)
Inductive Error : Type :=
  | NewError (message : string)
  | StreamError (err : string).

Definition PrematureEnd : Error :=
  NewError "Proxy connection ended before receiving CONNECT response".

Definition MissingStatusLine : Error :=
  NewError "No header received from proxy CONNECT response".

(** The double quote of the template of line 85. *)
Definition quote : ascii := "034"%char.

Definition MalformedHeaderLine (header : string) : Error :=
  NewError ("Invalid header from proxy CONNECT response: " +:+
            String quote (header +:+ String quote "")).

(** How the promise is settled. *)
Inductive Settled : Type :=
  | Resolved (connect : ConnectResponse) (buffered : Buffer)
  | Rejected (reason : Error).

(** The socket as the reader sees it: the chunks its next [read()] calls
    return (none left: [read()] gives [null]), which listeners of the
    reader are attached, and whether [destroy()] was called. *)
Record Socket : Type := mkSocket {
  readable : list Buffer;
  onErrorListener : bool;
  onEndListener : bool;
  readListener : bool;
  destroyed : bool
}.

(** The closure of one call: its two variables, the socket and the
    promise. *)
Record State : Type := mkState {
  buffersLength : nat;
  buffers : list Buffer;
  socket : Socket;
  promise : option Settled
}.

Definition withSocket (f : Socket -> Socket) (st : State) : State :=
  mkState (buffersLength st) (buffers st) (f (socket st)) (promise st).

(** [resolve(v)] and [reject(e)]: a promise settles once, later calls do
    nothing. *)
Definition settle (v : Settled) (st : State) : State :=
  match promise st with
  | Some _ => st
  | None => mkState (buffersLength st) (buffers st) (socket st) (Some v)
  end.

Definition resolve (connect : ConnectResponse) (buffered : Buffer) : State -> State :=
  settle (Resolved connect buffered).

Definition reject (reason : Error) : State -> State :=
  settle (Rejected reason).

(** [socket.destroy()] *)
Definition destroy : State -> State :=
  withSocket (λ s, mkSocket (readable s) (onErrorListener s) (onEndListener s)
                            (readListener s) true).

(** [socket.once('readable', read)] *)
Definition onceReadable : State -> State :=
  withSocket (λ s, mkSocket (readable s) (onErrorListener s) (onEndListener s)
                            true (destroyed s)).

(** The socket takes an emitted ['readable'] listener off before it calls
    it. *)
Definition takeReadListener : State -> State :=
  withSocket (λ s, mkSocket (readable s) (onErrorListener s) (onEndListener s)
                            false (destroyed s)).

(** Lines 112 and 113. *)
Definition listen : State -> State :=
  withSocket (λ s, mkSocket (readable s) true true
                            (readListener s) (destroyed s)).

(** Lines 30 to 34. *)
Definition cleanup : State -> State :=
  withSocket (λ s, mkSocket (readable s) false false false (destroyed s)).

(** Lines 36 to 44. *)
Definition onend (st : State) : State :=
  reject PrematureEnd (cleanup st).

(** Lines 46 to 50. *)
Definition onerror (err : string) (st : State) : State :=
  reject (StreamError err) (cleanup st).

(** The loop of lines 78 to 99 over the remaining lines; [inl header] is
    the early return at a line without a colon. *)
Fixpoint headerLoop (headers : Headers.t) (headerParts : list string)
  : string + Headers.t :=
  match headerParts with
  | [] => inr headers
  | header :: rest =>
      if String.eqb header "" then headerLoop headers rest
      else
        let firstColon := Text.indexOf header ":" in
        if firstColon =? -1 then inl header
        else
          let key := Text.toLowerCase (Text.slice header 0 (Some firstColon)) in
          let val := Text.trimStart (Text.slice header (firstColon + 1) None) in
          headerLoop (Headers.add headers key val) rest
  end.

(** Lines 66 to 99: what the accumulated bytes decode to, [inl] being the
    error of an early return. *)
Definition decode (buffered : Buffer) : Error + ConnectResponse :=
  let headerParts := Text.split (toString_ascii buffered) Text.CRLF in
  match headerParts with
  | [] | "" :: _ => inl MissingStatusLine
  | firstLine :: headerParts =>
      let firstLineParts := Text.split firstLine " " in
      let statusCode := Num.coerce (firstLineParts !! 1%nat) in
      let statusText := Text.join (drop 2 firstLineParts) " " in
      match headerLoop ∅ headerParts with
      | inl header => inl (MalformedHeaderLine header)
      | inr headers => inr (mkConnect statusCode statusText headers)
      end
  end.

(** Lines 52 to 110.  [read] stands for the call of line 62. *)
Definition ondata (read : State -> State) (b : Buffer) (st : State) : State :=
  let st := mkState (buffersLength st + length b) (buffers st ++ [b])
                    (socket st) (promise st) in
  let buffered := Buf.concat (buffers st) (buffersLength st) in
  let endOfHeaders := Buf.indexOf buffered (Text.CRLF +:+ Text.CRLF) in
  if endOfHeaders =? -1 then read st
  else
    match decode buffered with
    | inl err => reject err (destroy st)
    | inr connect => resolve connect buffered (cleanup st)
    end.

(** Lines 24 to 28, unfolded along the chunks the socket holds: each
    [socket.read()] takes the next one, and [null] ends the calls. *)
Fixpoint readFrom (chunks : list Buffer) (st : State) : State :=
  match chunks with
  | [] => onceReadable st
  | b :: rest =>
      let st := withSocket (λ s, mkSocket rest (onErrorListener s) (onEndListener s)
                                          (readListener s) (destroyed s)) st in
      ondata (readFrom rest) b st
  end.

Definition read (st : State) : State := readFrom (readable (socket st)) st.

(** A socket no reader has touched, holding [chunks]. *)
Definition fresh (chunks : list Buffer) : Socket :=
  mkSocket chunks false false false false.

(** Lines 13 to 116: the state when the call returns. *)
Definition parseProxyResponse (socket : Socket) : State :=
  read (listen (mkState 0 [] socket None)).

(** What the stream does afterwards.  [Readable chunks] is a ['readable']
    event at which the calls of [socket.read()] return the values
    [chunks], one each, before they return [null] (a stream in byte mode
    returns all the bytes it holds as one value, a stream in object mode
    its objects one by one). *)
Inductive Event : Type :=
  | Readable (chunks : list Buffer)
  | Ended
  | Errored (err : string).

(** The socket emits an event: its attached listener, if any, runs. *)
Definition emit (st : State) (ev : Event) : State :=
  match ev with
  | Readable chunks =>
      let st := withSocket (λ s, mkSocket (readable s ++ chunks) (onErrorListener s)
                                          (onEndListener s) (readListener s)
                                          (destroyed s)) st in
      if readListener (socket st) then read (takeReadListener st) else st
  | Ended => if onEndListener (socket st) then onend st else st
  | Errored err => if onErrorListener (socket st) then onerror err st else st
  end.

(** The call on a socket holding [chunks], then the events in order. *)
Definition run (chunks : list Buffer) (events : list Event) : State :=
  fold_left emit events (parseProxyResponse (fresh chunks)).

(** The call on an empty socket, then the chunks one at a time, one
    ['readable'] each. *)
Definition deliver (chunks : list Buffer) : State :=
  run [] (Readable <$> ((λ b, [b]) <$> chunks)).

End Reader.

(* ===================================================================== *)
(** ** Runs of the reader *)
(* ===================================================================== *)

Module Run.

Import Reader.

(** The four bytes that end the header block. *)
Definition terminator : string := Text.CRLF +:+ Text.CRLF.

(** How the promise settles when the header block is complete in [b]. *)
Definition settleAt (b : Buf.Buffer) : Settled :=
  match decode b with
  | inl err => Rejected err
  | inr connect => Resolved connect b
  end.

(** The accumulated bytes at the first chunk that completes a header
    block, starting from the bytes [acc]. *)
Fixpoint firstComplete (acc : Buf.Buffer) (chunks : list Buf.Buffer)
  : option Buf.Buffer :=
  match chunks with
  | [] => None
  | b :: rest =>
      if Buf.indexOf (acc ++ b) terminator =? -1
      then firstComplete (acc ++ b) rest
      else Some (acc ++ b)
  end.

(** The first terminator of [input] is its last four bytes: a header block
    with nothing after it. *)
Definition closes (input : Buf.Buffer) : Prop :=
  Buf.indexOf input terminator <> -1 /\
  Buf.indexOf input terminator + 4 = Z.of_nat (length input).

(** The chunks an event puts into the socket. *)
Definition chunksOf (ev : Event) : list Buf.Buffer :=
  match ev with
  | Readable chunks => chunks
  | Ended | Errored _ => []
  end.

Definition delivered (events : list Event) : list Buf.Buffer :=
  List.concat (chunksOf <$> events).

(** Everything the socket ever held: what was read, then what is left. *)
Definition total (st : State) : list Buf.Buffer :=
  buffers st ++ readable (socket st).

(** The state inside the calls of [read]: nothing settled, both
    listeners of lines 112 and 113 attached, the ['readable'] one taken
    off, and no terminator in the bytes read so far. *)
Record Reading (st : State) : Prop := {
  reading_promise : promise st = None;
  reading_end : onEndListener (socket st) = true;
  reading_error : onErrorListener (socket st) = true;
  reading_read : readListener (socket st) = false;
  reading_alive : destroyed (socket st) = false;
  reading_length : buffersLength st = length (List.concat (buffers st));
  reading_open : Buf.indexOf (List.concat (buffers st)) terminator = -1
}.

(** The state between two events. *)
Record Consistent (st : State) : Prop := {
  ok_length : buffersLength st = length (List.concat (buffers st));
  ok_pending :
    promise st = None ->
    readListener (socket st) = true /\ onEndListener (socket st) = true /\
    onErrorListener (socket st) = true /\ readable (socket st) = [] /\
    destroyed (socket st) = false /\
    Buf.indexOf (List.concat (buffers st)) terminator = -1;
  ok_settled : promise st <> None -> readListener (socket st) = false;
  ok_destroyed :
    destroyed (socket st) = true <->
    (promise st = Some (Rejected MissingStatusLine) \/
     exists header, promise st = Some (Rejected (MalformedHeaderLine header)));
  ok_resolved :
    forall connect buffered,
      promise st = Some (Resolved connect buffered) ->
      buffered = List.concat (buffers st) /\ decode buffered = inr connect;
  ok_detached :
    promise st <> None -> destroyed (socket st) = false ->
    onEndListener (socket st) = false /\ onErrorListener (socket st) = false
}.

Ltac fields :=
  unfold withSocket in *;
  cbn [buffers buffersLength socket promise readable
       onErrorListener onEndListener readListener destroyed] in *.

End Run.

(* ===================================================================== *)
(** ** Responses on the wire *)
(* ===================================================================== *)

Module Wire.

Import Text.

(** The status line: version, status code and the words of the reason, one
    space between them. *)
Definition statusLine (version code : string) (reason : list string) : string :=
  join (version :: code :: reason) " ".

(** A header line: the name, a colon, the value as it is sent. *)
Definition headerLine (name value : string) : string :=
  name +:+ ":" +:+ value.

(** The header block: the status line and the header lines, each ended by
    CR LF, then the blank line. *)
Definition response (first : string) (headerLines : list string) : string :=
  join (first :: headerLines) CRLF +:+ CRLF +:+ CRLF.

(** Text of one line: characters below 128, none of them CR or LF. *)
Definition plain (s : string) : bool :=
  all is7bit s && negb (has CR s) && negb (has LF s).

(** A word of the status line: plain, without a space. *)
Definition word (s : string) : bool :=
  plain s && negb (has " " s).

(** A status code is a run of decimal digits that a double holds exactly. *)
Definition validCode (code : string) : bool :=
  Num.some Num.isDigit code && (Num.value 10 code <=? 2 ^ 53).

Definition validStatus (version code : string) (reason : list string) : bool :=
  word version && validCode code && forallb word reason.

(** A header line is valid when it is plain and has a colon. *)
Definition validHeader (header : string) : bool :=
  plain header && has ":" header.

(** The key and the value lines 89 and 90 take from a header line. *)
Definition keyOf (header : string) : string :=
  toLowerCase (slice header 0 (Some (indexOf header ":"))).

Definition valueOf (header : string) : string :=
  trimStart (slice header (indexOf header ":" + 1) None).

(** The values of the lines whose key is [key], in the order of the
    lines; empty lines are passed over. *)
Fixpoint valuesFor (key : string) (headerParts : list string) : list string :=
  match headerParts with
  | [] => []
  | header :: rest =>
      if String.eqb header "" then valuesFor key rest
      else if String.eqb (keyOf header) key
           then valueOf header :: valuesFor key rest
           else valuesFor key rest
  end.

(** A line the loop accepts: empty, or with a colon. *)
Definition wellFormed (header : string) : bool :=
  String.eqb header "" || negb (indexOf header ":" =? -1).

(** What a header with these values, in this order, ends up as. *)
Definition gathered (values : list string) : option Headers.value :=
  match values with
  | [] => None
  | [v] => Some (Headers.Str v)
  | _ => Some (Headers.Arr values)
  end.

(** The values a header holds, in order. *)
Definition values (v : Headers.value) : list string :=
  match v with
  | Headers.Str s => [s]
  | Headers.Arr items => items
  end.

(** A header as a server declares it: a plain name without a colon and a
    plain value. *)
Definition validField (field : string * string) : bool :=
  plain (fst field) && negb (has ":" (fst field)) && plain (snd field).

Definition fieldLine (field : string * string) : string :=
  headerLine (fst field) (snd field).

(** One more value for a header. *)
Definition push (cur : option Headers.value) (v : string) : Headers.value :=
  match cur with
  | None => Headers.Str v
  | Some (Headers.Str s) => Headers.Arr [s; v]
  | Some (Headers.Arr items) => Headers.Arr (items ++ [v])
  end.

Definition collect (cur : option Headers.value) (values : list string)
  : option Headers.value :=
  fold_left (λ c v, Some (push c v)) values cur.

(** The sample exchange: a response with one header, followed by bytes of
    the tunnel. *)
Definition sampleHead : string :=
  "HTTP/1.1 200 Connection established" +:+ CRLF +:+
  "Proxy-agent: test" +:+ CRLF +:+ CRLF.

Definition sampleTunnel : string := "<tunnel-bytes>".

Definition sample : string := sampleHead +:+ sampleTunnel.

(** A header block with no header line. *)
Definition bare : string := "HTTP/1.1 200 OK" +:+ CRLF +:+ CRLF.

(** The terminator with nothing before it. *)
Definition blank : string := CRLF +:+ CRLF.

(** A header line without a colon. *)
Definition colonless : string :=
  "HTTP/1.1 200 Connection Established" +:+ CRLF +:+ "foo" +:+ CRLF +:+ CRLF.

(** Header blocks whose header is named [__proto__], once and twice. *)
Definition protoOnce : string :=
  "HTTP/1.1 200 OK" +:+ CRLF +:+ "__proto__: x" +:+ CRLF +:+ CRLF.

Definition protoTwice : string :=
  "HTTP/1.1 200 OK" +:+ CRLF +:+ "__proto__: a" +:+ CRLF +:+
  "__proto__: b" +:+ CRLF +:+ CRLF.

(** A header sent twice, and three times in mixed case. *)
Definition twice : string :=
  "HTTP/1.1 200 OK" +:+ CRLF +:+ "Via: a" +:+ CRLF +:+ "Via: b" +:+ CRLF +:+ CRLF.

Definition thrice : string :=
  "HTTP/1.1 200 OK" +:+ CRLF +:+ "Via: a" +:+ CRLF +:+ "via: b" +:+ CRLF +:+
  "VIA: c" +:+ CRLF +:+ CRLF.

(** A status line whose second word is no number. *)
Definition wordy : string :=
  "HTTP/1.1 abc Nope" +:+ CRLF +:+ "a:b" +:+ CRLF +:+ CRLF.

End Wire.

(* ===================================================================== *)
(** ** The shape of the headers object *)
(* ===================================================================== *)

Module Shape.

(** What every entry of the headers object looks like: a lower-case key
    other than [__proto__], values without leading white space, and an
    array only for two values or more. *)
Definition entryOk (key : string) (v : Headers.value) : Prop :=
  Text.toLowerCase key = key /\
  key <> Headers.protoKey /\
  Forall (λ s, Text.trimStart s = s) (Wire.values v) /\
  match v with
  | Headers.Str _ => True
  | Headers.Arr items => (2 <= length items)%nat
  end.

Definition shaped (headers : Headers.t) : Prop :=
  forall key v, headers !! key = Some v -> entryOk key v.


End Shape.

(* ===================================================================== *)
(** ** Numeric literals, production by production *)
(* ===================================================================== *)

Module Grammar.

(** The texts the conversion of a string to a number accepts, once white
    space is trimmed off both ends, written as the productions of the
    language's grammar; [Num.isNumeric] is the check the conversion runs.
    The empty text is no literal: the conversion treats it apart. *)

(** One or more decimal digits. *)
Definition Digits (s : string) : Prop :=
  s <> "" /\ Text.all Num.isDigit s = true.

Inductive Sign : string -> Prop :=
  | sign_none : Sign ""
  | sign_plus : Sign "+"
  | sign_minus : Sign "-".

(** Nothing, or an exponent part: [e] or [E], a sign or none, digits. *)
Inductive ExponentOpt : string -> Prop :=
  | exponent_none : ExponentOpt ""
  | exponent_part (e : ascii) (sign d : string) :
      e = "e"%char \/ e = "E"%char -> Sign sign -> Digits d ->
      ExponentOpt (String e (sign +:+ d)).

(** [Infinity]; digits around a point, on one side of it at least;
    digits alone; the last two with an exponent part or without. *)
Inductive Unsigned : string -> Prop :=
  | unsigned_infinity : Unsigned "Infinity"
  | unsigned_point (i f x : string) :
      Text.all Num.isDigit i = true -> Text.all Num.isDigit f = true ->
      i <> "" \/ f <> "" -> ExponentOpt x ->
      Unsigned (i +:+ String "." (f +:+ x))
  | unsigned_integer (i x : string) :
      Digits i -> ExponentOpt x -> Unsigned (i +:+ x).

(** The letter of a radix prefix and the digits it takes. *)
Inductive Radix : ascii -> (ascii -> bool) -> Prop :=
  | radix_x : Radix "x" Num.isHex
  | radix_X : Radix "X" Num.isHex
  | radix_o : Radix "o" Num.isOctal
  | radix_O : Radix "O" Num.isOctal
  | radix_b : Radix "b" Num.isBinary
  | radix_B : Radix "B" Num.isBinary.

(** A numeric literal: a decimal literal with a sign or without, or
    digits after a radix prefix. *)
Inductive Numeric : string -> Prop :=
  | numeric_decimal (sign u : string) :
      Sign sign -> Unsigned u -> Numeric (sign +:+ u)
  | numeric_radix (p : ascii) (class : ascii -> bool) (d : string) :
      Radix p class -> d <> "" -> Text.all class d = true ->
      Numeric (String "0" (String p d)).

(** The status code by the kind of the second word of the status line:
    NaN when there is none; 0 when it is empty or white space only; NaN
    when it is neither that nor a numeric literal. *)
Inductive Coerced : option string -> Num.number -> Prop :=
  | coerced_absent : Coerced None Num.NaN
  | coerced_blank (token : string) :
      Text.trim token = "" -> Coerced (Some token) (Num.Int 0)
  | coerced_other (token : string) :
      Text.trim token <> "" -> ~ Numeric (Text.trim token) ->
      Coerced (Some token) Num.NaN.

End Grammar.

(* ===================================================================== *)
(** ** Facts about the string primitives *)
(* ===================================================================== *)

Module TextFacts.

Import Text.

Lemma app_nil (s : string) : "" +:+ s = s.
Proof. reflexivity. Qed.

Lemma app_cons (c : ascii) (s t : string) :
  String c s +:+ t = String c (s +:+ t).
Proof. reflexivity. Qed.

Lemma app_nil_r (s : string) : s +:+ "" = s.
Proof. induction s as [|c s IH]; [reflexivity|]. now rewrite app_cons, IH. Qed.

Lemma app_assoc (s t u : string) : (s +:+ t) +:+ u = s +:+ (t +:+ u).
Proof.
  induction s as [|c s IH]; [reflexivity|]. now rewrite !app_cons, IH.
Qed.

Lemma len_app (s t : string) : len (s +:+ t) = (len s + len t)%nat.
Proof.
  induction s as [|c s IH]; [reflexivity|].
  rewrite app_cons. unfold len in *. simpl. now rewrite IH.
Qed.

Lemma eqb_refl (c : ascii) : Ascii.eqb c c = true.
Proof. now apply Ascii.eqb_eq. Qed.

Lemma startsWith_app (p s : string) : startsWith p (p +:+ s) = true.
Proof.
  induction p as [|c p IH]; [reflexivity|].
  rewrite app_cons. simpl. now rewrite eqb_refl.
Qed.

(** A text that does not begin with the first character of [p] does not
    begin with [p]. *)
Lemma startsWith_head (c a : ascii) (p s : string) :
  Ascii.eqb c a = false -> startsWith (String c p) (String a s) = false.
Proof. intros H. simpl. now rewrite H. Qed.

Lemma indexOf_lower (s needle : string) : -1 <= indexOf s needle.
Proof.
  induction s as [|c s IH]; simpl.
  - destruct (startsWith needle ""); lia.
  - destruct (startsWith needle (String c s)); [lia|].
    destruct (Z.eqb_spec (indexOf s needle) (-1)); lia.
Qed.

(** [indexOf] of a one-character needle past a prefix that lacks it. *)
Lemma indexOf_char (c : ascii) (name rest : string) :
  has c name = false ->
  indexOf (name +:+ String c rest) (String c "") = Z.of_nat (len name).
Proof.
  induction name as [|a name IH]; intros Hno.
  - rewrite app_nil. simpl. now rewrite eqb_refl.
  - simpl in Hno. apply orb_false_iff in Hno as [Ha Hno].
    rewrite app_cons.
    change (indexOf (String a (name +:+ String c rest)) (String c ""))
      with (if startsWith (String c "") (String a (name +:+ String c rest))
            then 0
            else let k := indexOf (name +:+ String c rest) (String c "") in
                 if k =? -1 then -1 else k + 1).
    rewrite startsWith_head by (rewrite Ascii.eqb_sym; exact Ha).
    cbv zeta. rewrite (IH Hno).
    destruct (Z.eqb_spec (Z.of_nat (len name)) (-1)); [lia|].
    unfold len. simpl String.length. lia.
Qed.

Lemma indexOf_absent (c : ascii) (s : string) :
  has c s = false -> indexOf s (String c "") = -1.
Proof.
  induction s as [|a s IH]; intros Hno; [reflexivity|].
  simpl in Hno. apply orb_false_iff in Hno as [Ha Hno].
  change (indexOf (String a s) (String c ""))
    with (if startsWith (String c "") (String a s) then 0
          else let k := indexOf s (String c "") in
               if k =? -1 then -1 else k + 1).
  rewrite startsWith_head by (rewrite Ascii.eqb_sym; exact Ha).
  cbv zeta. now rewrite (IH Hno).
Qed.

Lemma indexOf_present (c : ascii) (s : string) :
  has c s = true -> indexOf s (String c "") <> -1.
Proof.
  induction s as [|a s IH]; intros Hyes; [discriminate|].
  simpl in Hyes.
  change (indexOf (String a s) (String c ""))
    with (if startsWith (String c "") (String a s) then 0
          else let k := indexOf s (String c "") in
               if k =? -1 then -1 else k + 1).
  destruct (startsWith (String c "") (String a s)) eqn:Hst; [lia|].
  simpl in Hst. rewrite Ascii.eqb_sym in Hst.
  destruct (Ascii.eqb a c) eqn:Hac; [discriminate|].
  simpl in Hyes. specialize (IH Hyes). cbv zeta.
  pose proof (indexOf_lower s (String c "")).
  destruct (Z.eqb_spec (indexOf s (String c "")) (-1)); lia.
Qed.

Lemma take_app (s t : string) : take (len s) (s +:+ t) = s.
Proof.
  induction s as [|c s IH]; [now destruct t|].
  rewrite app_cons. unfold len in *. simpl. now rewrite IH.
Qed.

Lemma drop_app (s t : string) : drop (len s) (s +:+ t) = t.
Proof.
  induction s as [|c s IH]; [now destruct t|].
  rewrite app_cons. unfold len in *. simpl. exact IH.
Qed.

Lemma take_all (s : string) : take (len s) s = s.
Proof. rewrite <- (app_nil_r s) at 2. apply take_app. Qed.

(** [slice(0, n)] and [slice(n + 1)] around the character at [n]. *)
Lemma slice_before (name rest : string) (c : ascii) :
  slice (name +:+ String c rest) 0 (Some (Z.of_nat (len name))) = name.
Proof.
  unfold slice, clamp. rewrite len_app.
  replace (0 <? 0) with false by reflexivity.
  destruct (Z.ltb_spec (Z.of_nat (len name)) 0); [lia|].
  rewrite Nat2Z.id. simpl Z.to_nat.
  rewrite Nat.min_0_l, Nat.sub_0_r, Nat.min_l by lia.
  simpl drop. apply take_app.
Qed.

Lemma slice_after (name rest : string) (c : ascii) :
  slice (name +:+ String c rest) (Z.of_nat (len name) + 1) None = rest.
Proof.
  unfold slice, clamp. rewrite len_app.
  destruct (Z.ltb_spec (Z.of_nat (len name) + 1) 0); [lia|].
  replace (Z.to_nat (Z.of_nat (len name) + 1)) with (S (len name)) by lia.
  assert (Hl : len (String c rest) = S (len rest)) by reflexivity.
  rewrite Hl, Nat.min_l by lia.
  replace (len name + S (len rest) - S (len name))%nat with (len rest) by lia.
  replace (S (len name)) with (len (name +:+ String c "")).
  2:{ rewrite len_app. unfold len. simpl. lia. }
  replace (name +:+ String c rest) with ((name +:+ String c "") +:+ rest).
  2:{ now rewrite app_assoc. }
  rewrite drop_app. apply take_all.
Qed.

Lemma all_app (p : ascii -> bool) (s t : string) :
  all p (s +:+ t) = all p s && all p t.
Proof.
  induction s as [|c s IH]; [reflexivity|].
  rewrite app_cons. simpl. now rewrite IH, andb_assoc.
Qed.

Lemma has_app (c : ascii) (s t : string) :
  has c (s +:+ t) = has c s || has c t.
Proof.
  induction s as [|a s IH]; [reflexivity|].
  rewrite app_cons. simpl. now rewrite IH, orb_assoc.
Qed.

Lemma join_cons (p q : string) (ps : list string) (sep : string) :
  join (p :: q :: ps) sep = p +:+ sep +:+ join (q :: ps) sep.
Proof. reflexivity. Qed.

Lemma join_snoc (ps : list string) (x sep : string) :
  ps <> [] -> join (ps ++ [x]) sep = join ps sep +:+ sep +:+ x.
Proof.
  induction ps as [|p ps IH]; intros Hne; [congruence|].
  destruct ps as [|q ps]; [reflexivity|].
  change ((p :: q :: ps) ++ [x]) with (p :: (q :: ps) ++ [x]).
  change ((q :: ps) ++ [x]) with (q :: ps ++ [x]) at 1.
  rewrite join_cons.
  change (q :: ps ++ [x]) with ((q :: ps) ++ [x]).
  rewrite IH by congruence.
  now rewrite join_cons, !app_assoc.
Qed.

Lemma all_join (p : ascii -> bool) (ps : list string) (sep : string) :
  all p sep = true ->
  forallb (all p) ps = true ->
  all p (join ps sep) = true.
Proof.
  intros Hsep. induction ps as [|q ps IH]; intros Hall; [reflexivity|].
  cbn [forallb] in Hall. apply andb_true_iff in Hall as [Hq Hps].
  destruct ps as [|r ps]; [exact Hq|].
  rewrite join_cons, !all_app, Hq, Hsep. now rewrite IH.
Qed.

Lemma has_join (c : ascii) (ps : list string) (sep : string) :
  has c sep = false ->
  forallb (λ q, negb (has c q)) ps = true ->
  has c (join ps sep) = false.
Proof.
  intros Hsep. induction ps as [|q ps IH]; intros Hall; [reflexivity|].
  cbn [forallb] in Hall. apply andb_true_iff in Hall as [Hq Hps].
  apply negb_true_iff in Hq.
  destruct ps as [|r ps]; [exact Hq|].
  rewrite join_cons, !has_app, Hq, Hsep. now rewrite IH.
Qed.

Lemma rev_acc_twice (s acc acc' : string) :
  rev_acc (rev_acc s acc) acc' = rev_acc acc (s +:+ acc').
Proof.
  revert acc acc'. induction s as [|c s IH]; intros acc acc'; [reflexivity|].
  cbn [rev_acc]. now rewrite IH.
Qed.

Lemma trimStart_rev_acc (s acc : string) :
  all (λ c, negb (isWhiteSpace c)) s = true ->
  trimStart acc = acc ->
  trimStart (rev_acc s acc) = rev_acc s acc.
Proof.
  revert acc. induction s as [|c s IH]; intros acc Hs Hacc; [exact Hacc|].
  cbn [all] in Hs. apply andb_true_iff in Hs as [Hc Hs].
  cbn [rev_acc]. apply IH; [exact Hs|].
  cbn [trimStart]. apply negb_true_iff in Hc. now rewrite Hc.
Qed.

(** Text without white space is its own trim. *)
Lemma trim_solid (s : string) :
  all (λ c, negb (isWhiteSpace c)) s = true -> trim s = s.
Proof.
  intros Hs. unfold trim, trimEnd.
  assert (Hstart : trimStart s = s).
  { destruct s as [|c s]; [reflexivity|].
    cbn [all] in Hs. apply andb_true_iff in Hs as [Hc _].
    cbn [trimStart]. apply negb_true_iff in Hc. now rewrite Hc. }
  rewrite Hstart, trimStart_rev_acc by easy.
  rewrite rev_acc_twice. cbn [rev_acc]. apply app_nil_r.
Qed.

End TextFacts.

(** *** Splitting and joining *)

Module SplitFacts.

Import Text TextFacts.

Lemma split_scan_skip (sep t r : string) :
  split_scan sep (len t) (t +:+ r) = split_scan sep 0 r.
Proof.
  induction t as [|c t IH]; [reflexivity|].
  rewrite app_cons. exact IH.
Qed.

Lemma split_scan_sep (c : ascii) (sep' r : string) :
  split_scan (String c sep') 0 (String c sep' +:+ r)
  = "" :: split_scan (String c sep') 0 r.
Proof.
  rewrite app_cons.
  change (split_scan (String c sep') 0 (String c (sep' +:+ r)))
    with (if startsWith (String c sep') (String c (sep' +:+ r))
          then "" :: split_scan (String c sep') (len (String c sep') - 1) (sep' +:+ r)
          else cons_first c (split_scan (String c sep') 0 (sep' +:+ r))).
  rewrite <- app_cons, startsWith_app.
  replace (len (String c sep') - 1)%nat with (len sep')
    by (unfold len; simpl; lia).
  now rewrite split_scan_skip.
Qed.

Lemma split_scan_other (c a : ascii) (sep' r : string) :
  Ascii.eqb c a = false ->
  split_scan (String c sep') 0 (String a r)
  = cons_first a (split_scan (String c sep') 0 r).
Proof.
  intros H.
  change (split_scan (String c sep') 0 (String a r))
    with (if startsWith (String c sep') (String a r)
          then "" :: split_scan (String c sep') (len (String c sep') - 1) r
          else cons_first a (split_scan (String c sep') 0 r)).
  now rewrite startsWith_head.
Qed.

(** A piece free of the first character of the separator is cut off
    whole at the separator that follows it. *)
Lemma split_scan_piece (c : ascii) (sep' p r : string) :
  has c p = false ->
  split_scan (String c sep') 0 (p +:+ String c sep' +:+ r)
  = p :: split_scan (String c sep') 0 r.
Proof.
  induction p as [|a p IH]; intros Hno.
  - rewrite app_nil. apply split_scan_sep.
  - simpl in Hno. apply orb_false_iff in Hno as [Ha Hno].
    rewrite app_cons, split_scan_other by (rewrite Ascii.eqb_sym; exact Ha).
    now rewrite IH.
Qed.

Lemma split_scan_last (c : ascii) (sep' p : string) :
  has c p = false -> split_scan (String c sep') 0 p = [p].
Proof.
  induction p as [|a p IH]; intros Hno; [reflexivity|].
  simpl in Hno. apply orb_false_iff in Hno as [Ha Hno].
  rewrite split_scan_other by (rewrite Ascii.eqb_sym; exact Ha).
  now rewrite IH.
Qed.

(** Joining pieces that are free of the separator's first character and
    splitting again gives the pieces back. *)
Lemma split_join (c : ascii) (sep' : string) (pieces : list string) :
  pieces <> [] ->
  Forall (λ p, has c p = false) pieces ->
  split (join pieces (String c sep')) (String c sep') = pieces.
Proof.
  unfold split.
  induction pieces as [|p ps IH]; intros Hne Hall; [congruence|].
  inversion Hall as [|? ? Hp Hps]; subst.
  destruct ps as [|q ps].
  - simpl. now apply split_scan_last.
  - change (join (p :: q :: ps) (String c sep'))
      with (p +:+ String c sep' +:+ join (q :: ps) (String c sep')).
    rewrite split_scan_piece by exact Hp.
    f_equal. now apply IH.
Qed.

(** The first piece of a text that begins with the separator is empty. *)
Lemma split_leading_sep (c : ascii) (sep' r : string) :
  split (String c sep' +:+ r) (String c sep') = "" :: split r (String c sep').
Proof. unfold split. apply split_scan_sep. Qed.

End SplitFacts.

(** *** Buffers *)

Module BufFacts.

Import Buf TextFacts.

Lemma of_string_app (s t : string) :
  of_string (s +:+ t) = of_string s ++ of_string t.
Proof.
  unfold of_string, list_byte_of_string.
  induction s as [|c s IH]; [reflexivity|].
  rewrite app_cons. simpl. now rewrite IH.
Qed.

Lemma ascii7_id (c : ascii) :
  Text.is7bit c = true -> ascii7 (byte_of_ascii c) = c.
Proof.
  unfold ascii7. rewrite ascii_of_byte_of_ascii.
  destruct c as [b0 b1 b2 b3 b4 b5 b6 b7]. simpl.
  now destruct b7.
Qed.

(** Text below 128 survives the way through bytes and back. *)
Lemma toString_of_string (s : string) :
  Text.all Text.is7bit s = true -> toString_ascii (of_string s) = s.
Proof.
  unfold of_string, list_byte_of_string.
  induction s as [|c s IH]; intros H7; [reflexivity|].
  simpl in H7. apply andb_true_iff in H7 as [Hc Hs].
  simpl. now rewrite ascii7_id, IH.
Qed.

Lemma toString_app (a b : Buffer) :
  toString_ascii (a ++ b) = toString_ascii a +:+ toString_ascii b.
Proof.
  induction a as [|x a IH]; [reflexivity|].
  simpl. now rewrite IH, app_cons.
Qed.

Lemma byte_eqb_refl (x : byte) : Byte.eqb x x = true.
Proof. now apply Byte.byte_dec_lb. Qed.

Lemma bytes_startsWith_app (p b : list byte) : startsWith p (p ++ b) = true.
Proof.
  induction p as [|x p IH]; [reflexivity|].
  simpl. now rewrite byte_eqb_refl.
Qed.

Lemma bytes_startsWith_longer (p a b : list byte) :
  startsWith p a = true -> startsWith p (a ++ b) = true.
Proof.
  revert a. induction p as [|x p IH]; intros a H; [reflexivity|].
  destruct a as [|y a]; [discriminate|].
  simpl in *. destruct (Byte.eqb x y); [now apply IH | discriminate].
Qed.

Lemma index_bytes_lower (b needle : list byte) : -1 <= index_bytes b needle.
Proof.
  induction b as [|x b IH]; simpl.
  - destruct (startsWith needle []); lia.
  - destruct (startsWith needle (x :: b)); [lia|].
    destruct (Z.eqb_spec (index_bytes b needle) (-1)); lia.
Qed.

Lemma index_bytes_cons (x : byte) (b needle : list byte) :
  index_bytes (x :: b) needle =
  if startsWith needle (x :: b) then 0
  else if index_bytes b needle =? -1 then -1 else index_bytes b needle + 1.
Proof. reflexivity. Qed.

(** An occurrence stays one when bytes are appended. *)
Lemma index_bytes_longer (a b needle : list byte) :
  index_bytes a needle <> -1 -> index_bytes (a ++ b) needle <> -1.
Proof.
  induction a as [|x a IH]; intros H.
  - simpl in H. destruct (startsWith needle []) eqn:Hs; [|congruence].
    destruct needle; [|discriminate].
    destruct b; simpl; lia.
  - rewrite index_bytes_cons in H.
    change ((x :: a) ++ b) with (x :: (a ++ b)).
    rewrite index_bytes_cons.
    destruct (startsWith needle (x :: a)) eqn:Hs.
    + change (x :: a ++ b) with ((x :: a) ++ b).
      rewrite (bytes_startsWith_longer _ _ _ Hs). lia.
    + destruct (startsWith needle (x :: a ++ b)); [lia|].
      destruct (Z.eqb_spec (index_bytes a needle) (-1)); [congruence|].
      pose proof (index_bytes_lower (a ++ b) needle).
      specialize (IH n).
      destruct (Z.eqb_spec (index_bytes (a ++ b) needle) (-1)); lia.
Qed.

Lemma index_bytes_shorter (a b needle : list byte) :
  index_bytes (a ++ b) needle = -1 -> index_bytes a needle = -1.
Proof.
  intros H. destruct (Z.eq_dec (index_bytes a needle) (-1)) as [|Hn]; [assumption|].
  now apply (index_bytes_longer a b) in Hn.
Qed.

Lemma index_bytes_found (a b needle : list byte) :
  index_bytes (a ++ needle ++ b) needle <> -1.
Proof.
  induction a as [|x a IH].
  - destruct needle as [|y needle]; [destruct b; simpl; lia|].
    change ([] ++ (y :: needle) ++ b) with ((y :: needle) ++ b).
    change ((y :: needle) ++ b) with (y :: needle ++ b).
    rewrite index_bytes_cons.
    change (y :: needle ++ b) with ((y :: needle) ++ b).
    rewrite bytes_startsWith_app. lia.
  - change ((x :: a) ++ needle ++ b) with (x :: (a ++ needle ++ b)).
    rewrite index_bytes_cons.
    destruct (startsWith needle (x :: a ++ needle ++ b)); [lia|].
    pose proof (index_bytes_lower (a ++ needle ++ b) needle).
    destruct (Z.eqb_spec (index_bytes (a ++ needle ++ b) needle) (-1)); lia.
Qed.

Lemma indexOf_found (s t value : string) :
  indexOf (of_string (s +:+ value +:+ t)) value <> -1.
Proof.
  unfold indexOf. rewrite !of_string_app. apply index_bytes_found.
Qed.

(** With the length the reader keeps, [Buffer.concat] neither cuts nor
    pads. *)
Lemma concat_exact (l : list Buffer) :
  concat l (length (List.concat l)) = List.concat l.
Proof.
  unfold concat. rewrite Nat.sub_diag. simpl.
  rewrite List.app_nil_r. apply firstn_all.
Qed.

Lemma bytes_startsWith_length (p a : list byte) :
  startsWith p a = true -> (length p <= length a)%nat.
Proof.
  revert a. induction p as [|x p IH]; intros a H; [simpl; lia|].
  destruct a as [|y a]; [discriminate|].
  simpl in *. destruct (Byte.eqb x y); [|discriminate].
  specialize (IH a H). lia.
Qed.

(** The test at the start of a buffer is decided by its first bytes. *)
Lemma bytes_startsWith_decided (p a b : list byte) :
  (length p <= length a)%nat -> startsWith p (a ++ b) = startsWith p a.
Proof.
  revert a. induction p as [|x p IH]; intros a Hlen; [reflexivity|].
  destruct a as [|y a]; [simpl in Hlen; lia|].
  simpl in *. destruct (Byte.eqb x y); [|reflexivity].
  apply IH. lia.
Qed.

(** An occurrence lies inside the buffer. *)
Lemma index_bytes_fits (a needle : list byte) :
  index_bytes a needle <> -1 ->
  index_bytes a needle + Z.of_nat (length needle) <= Z.of_nat (length a).
Proof.
  induction a as [|x a IH]; intros H.
  - simpl in *. destruct (startsWith needle []) eqn:Hs; [|congruence].
    apply bytes_startsWith_length in Hs. simpl in *. lia.
  - rewrite index_bytes_cons in *.
    destruct (startsWith needle (x :: a)) eqn:Hs.
    + apply bytes_startsWith_length in Hs. lia.
    + destruct (Z.eqb_spec (index_bytes a needle) (-1)); [congruence|].
      specialize (IH n). simpl length. lia.
Qed.

(** The first occurrence stays where it is when bytes are appended. *)
Lemma index_bytes_stable (a b needle : list byte) :
  index_bytes a needle <> -1 ->
  index_bytes (a ++ b) needle = index_bytes a needle.
Proof.
  induction a as [|x a IH]; intros H.
  - simpl in H. destruct (startsWith needle []) eqn:Hs; [|congruence].
    destruct needle; [|discriminate]. now destruct b.
  - pose proof (index_bytes_fits _ _ H) as Hfit.
    pose proof (index_bytes_lower (x :: a) needle) as Hlow.
    assert (Hlen : (length needle <= length (x :: a))%nat) by lia.
    change ((x :: a) ++ b) with (x :: (a ++ b)).
    rewrite !index_bytes_cons in *.
    change (x :: a ++ b) with ((x :: a) ++ b).
    rewrite (bytes_startsWith_decided _ _ _ Hlen).
    destruct (startsWith needle (x :: a)); [reflexivity|].
    destruct (Z.eqb_spec (index_bytes a needle) (-1)) as [|Hn]; [congruence|].
    rewrite (IH Hn).
    now destruct (Z.eqb_spec (index_bytes a needle) (-1)).
Qed.

(** Bytes that cannot start an occurrence are passed over. *)
Lemma index_bytes_skip (pre rest : list byte) (n0 : byte) (n' : list byte) :
  Forall (λ x, Byte.eqb n0 x = false) pre ->
  index_bytes rest (n0 :: n') <> -1 ->
  index_bytes (pre ++ rest) (n0 :: n')
  = Z.of_nat (length pre) + index_bytes rest (n0 :: n').
Proof.
  intros Hpre Hrest. induction Hpre as [|x pre Hx Hpre IH]; [reflexivity|].
  change ((x :: pre) ++ rest) with (x :: (pre ++ rest)).
  rewrite index_bytes_cons. cbn [startsWith]. rewrite Hx, IH.
  pose proof (index_bytes_lower rest (n0 :: n')).
  destruct (Z.eqb_spec (Z.of_nat (length pre) + index_bytes rest (n0 :: n')) (-1));
    [lia|]. simpl length. lia.
Qed.

Lemma byte_not_cr (c : ascii) :
  Ascii.eqb c Text.CR = false -> Byte.eqb x0d (byte_of_ascii c) = false.
Proof.
  intros Hc. destruct (Byte.eqb x0d (byte_of_ascii c)) eqn:E; [|reflexivity].
  apply Byte.byte_dec_bl in E.
  assert (Heq : c = Text.CR)
    by (rewrite <- (ascii_of_byte_of_ascii c), <- E; reflexivity).
  subst c. discriminate.
Qed.

Lemma bytes_without_cr (l : string) :
  Text.has Text.CR l = false ->
  Forall (λ x, Byte.eqb x0d x = false) (of_string l).
Proof.
  unfold of_string, list_byte_of_string.
  induction l as [|c l IH]; intros H; [constructor|].
  cbn [Text.has] in H. apply orb_false_iff in H as [Hc Hl].
  cbn [list_ascii_of_string List.map]. constructor; [now apply byte_not_cr|].
  now apply IH.
Qed.

End BufFacts.

(** *** Decimal digits and the numeric coercion *)

Module NumFacts.

Import Num TextFacts.

(** What a decimal digit is not. *)
Lemma digit_facts (c : ascii) :
  isDigit c = true ->
  Text.is7bit c = true /\ Text.isWhiteSpace c = false /\
  Ascii.eqb c Text.CR = false /\ Ascii.eqb c Text.LF = false /\
  Ascii.eqb c " " = false /\ 0 <= digit c.
Proof.
  intros H.
  destruct c as [[] [] [] [] [] [] [] []]; vm_compute in H; try discriminate;
    vm_compute; repeat split; discriminate.
Qed.

Lemma all_impl (p q : ascii -> bool) (s : string) :
  (forall c, p c = true -> q c = true) ->
  Text.all p s = true -> Text.all q s = true.
Proof.
  intros Hpq. induction s as [|c s IH]; [reflexivity|].
  cbn [Text.all]. intros H. apply andb_true_iff in H as [Hc Hs].
  now rewrite (Hpq c Hc), IH.
Qed.

Lemma has_none (p : ascii -> bool) (x : ascii) (s : string) :
  (forall c, p c = true -> Ascii.eqb c x = false) ->
  Text.all p s = true -> Text.has x s = false.
Proof.
  intros Hpx. induction s as [|c s IH]; [reflexivity|].
  cbn [Text.all Text.has]. intros H. apply andb_true_iff in H as [Hc Hs].
  now rewrite (Hpx c Hc), IH.
Qed.

Lemma some_all (p : ascii -> bool) (s : string) :
  some p s = true -> Text.all p s = true /\ s <> "".
Proof. destruct s; [discriminate|]. intros H. split; [exact H|discriminate]. Qed.

Lemma value_from_nonneg (s : string) (acc : Z) :
  Text.all isDigit s = true -> 0 <= acc -> 0 <= value_from 10 acc s.
Proof.
  revert acc. induction s as [|c s IH]; intros acc Hs Hacc; [exact Hacc|].
  cbn [Text.all] in Hs. apply andb_true_iff in Hs as [Hc Hs].
  cbn [value_from]. apply IH; [exact Hs|].
  destruct (digit_facts c Hc) as (_ & _ & _ & _ & _ & Hd). lia.
Qed.

(** Digits alone coerce to their decimal value. *)
Lemma ofString_digits (code : string) :
  some isDigit code = true -> ofString code = exact (value 10 code) code.
Proof.
  intros Hsome. destruct (some_all _ _ Hsome) as [Hall Hne].
  unfold ofString, isNumeric.
  rewrite trim_solid.
  2:{ apply (all_impl isDigit); [|exact Hall].
      intros c Hc. destruct (digit_facts c Hc) as (_ & Hws & _).
      now rewrite Hws. }
  destruct code as [|c code]; [contradiction|].
  now rewrite Hsome.
Qed.

Lemma coerce_valid (code : string) :
  Wire.validCode code = true -> coerce (Some code) = Int (value 10 code).
Proof.
  unfold Wire.validCode. intros H. apply andb_true_iff in H as [Hsome Hle].
  cbn [coerce]. rewrite (ofString_digits code Hsome). unfold exact.
  destruct (some_all _ _ Hsome) as [Hall _].
  pose proof (value_from_nonneg code 0 Hall (Z.le_refl 0)) as Hpos.
  fold (value 10 code) in Hpos.
  apply Z.leb_le in Hle.
  destruct (Z.leb_spec (Z.abs (value 10 code)) (2 ^ 53)); [reflexivity|lia].
Qed.

End NumFacts.

(** *** The check of the conversion against the grammar *)

Module GrammarFacts.

Import Num Grammar TextFacts.

(** The matches on characters, as tests. *)
Lemma unsign_spec (s : string) :
  unsign s = match s with
             | String c r =>
                 if Ascii.eqb c "+" || Ascii.eqb c "-" then r else s
             | "" => ""
             end.
Proof.
  destruct s as [|c r]; [reflexivity|].
  destruct c as [[] [] [] [] [] [] [] []]; reflexivity.
Qed.

Lemma exponentOpt_spec (s : string) :
  exponentOpt s = match s with
                  | String c r =>
                      (Ascii.eqb c "e" || Ascii.eqb c "E")
                      && some isDigit (unsign r)
                  | "" => true
                  end.
Proof.
  destruct s as [|c r]; [reflexivity|].
  destruct c as [[] [] [] [] [] [] [] []]; reflexivity.
Qed.

Lemma unsignedDecimal_spec (s : string) :
  unsignedDecimal s
  = if String.eqb s "Infinity" then true
    else match skip isDigit s with
         | String c r =>
             if Ascii.eqb c "."
             then (negb (String.eqb (skip isDigit s) s)
                   || negb (String.eqb (skip isDigit r) r))
                  && exponentOpt (skip isDigit r)
             else negb (String.eqb (skip isDigit s) s)
                  && exponentOpt (String c r)
         | "" => negb (String.eqb (skip isDigit s) s)
         end.
Proof.
  unfold unsignedDecimal.
  destruct (String.eqb s "Infinity"); [reflexivity|].
  destruct (skip isDigit s) as [|c r].
  - cbn [exponentOpt]. now rewrite andb_true_r.
  - destruct c as [[] [] [] [] [] [] [] []]; reflexivity.
Qed.

Lemma radix_spec (s : string) :
  radix s = match s with
            | String c (String p r) =>
                if Ascii.eqb c "0"
                then if Ascii.eqb p "x" || Ascii.eqb p "X"
                     then if some isHex r then Some (16, r) else None
                     else if Ascii.eqb p "o" || Ascii.eqb p "O"
                     then if some isOctal r then Some (8, r) else None
                     else if Ascii.eqb p "b" || Ascii.eqb p "B"
                     then if some isBinary r then Some (2, r) else None
                     else None
                else None
            | _ => None
            end.
Proof.
  destruct s as [|c [|p r]].
  - reflexivity.
  - destruct c as [[] [] [] [] [] [] [] []]; reflexivity.
  - destruct c as [[] [] [] [] [] [] [] []]; try reflexivity.
    destruct p as [[] [] [] [] [] [] [] []]; reflexivity.
Qed.

(** What a decimal digit is not. *)
Lemma digit_is_no_mark (c : ascii) :
  isDigit c = true ->
  Ascii.eqb c "+" = false /\ Ascii.eqb c "-" = false /\
  Ascii.eqb c "." = false /\ Ascii.eqb c "e" = false /\
  Ascii.eqb c "E" = false.
Proof.
  intros H.
  destruct c as [[] [] [] [] [] [] [] []]; vm_compute in H; try discriminate;
    vm_compute; repeat split.
Qed.

(** *** Passing over digits *)

Lemma skip_length (p : ascii -> bool) (s : string) :
  (Text.len (skip p s) <= Text.len s)%nat.
Proof.
  unfold Text.len. induction s as [|c s IH]; [reflexivity|].
  cbn [skip]. destruct (p c); cbn [String.length]; lia.
Qed.

(** Whether [skip] passed over anything. *)
Lemma skip_eqb (p : ascii -> bool) (s : string) :
  String.eqb (skip p s) s
  = match s with
    | "" => true
    | String c _ => negb (p c)
    end.
Proof.
  destruct s as [|c s]; [reflexivity|].
  cbn [skip]. destruct (p c) eqn:Hc; cbn [negb].
  - apply String.eqb_neq. intros E.
    pose proof (skip_length p s) as Hlen. rewrite E in Hlen.
    unfold Text.len in Hlen. cbn [String.length] in Hlen. lia.
  - apply String.eqb_refl.
Qed.

(** The text is what [skip] passed over, then what it left. *)
Lemma skip_span (p : ascii -> bool) (s : string) :
  exists i, s = i +:+ skip p s /\ Text.all p i = true.
Proof.
  induction s as [|c s (i & Hs & Hi)].
  - now exists "".
  - cbn [skip]. destruct (p c) eqn:Hc.
    + exists (String c i). rewrite app_cons, <- Hs. cbn [Text.all].
      now rewrite Hc, Hi.
    + now exists "".
Qed.

Lemma skip_app (p : ascii -> bool) (i rest : string) :
  Text.all p i = true -> skip p (i +:+ rest) = skip p rest.
Proof.
  induction i as [|c i IH]; [reflexivity|].
  cbn [Text.all]. intros H. apply andb_true_iff in H as [Hc Hi].
  rewrite app_cons. cbn [skip]. rewrite Hc. now apply IH.
Qed.

Lemma skip_stays (p : ascii -> bool) (c : ascii) (r : string) :
  p c = false -> skip p (String c r) = String c r.
Proof. intros H. cbn [skip]. now rewrite H. Qed.

(** *** From the check to the grammar *)

Lemma digits_some (d : string) : some isDigit d = true <-> Digits d.
Proof.
  unfold Digits. destruct d as [|c d]; cbn [some].
  - split; [discriminate|]. now intros [H _].
  - split; [intros H; split; [discriminate|exact H]|now intros [_ H]].
Qed.

Lemma signed_digits (r : string) :
  some isDigit (unsign r) = true <->
  exists sign d, r = sign +:+ d /\ Sign sign /\ Digits d.
Proof.
  rewrite unsign_spec. split.
  - destruct r as [|c r]; [discriminate|].
    destruct (Ascii.eqb_spec c "+") as [-> |Hplus]; cbn [orb].
    { intros H. exists "+", r. repeat split; try constructor.
      - apply digits_some in H. now destruct H.
      - apply digits_some in H. now destruct H. }
    destruct (Ascii.eqb_spec c "-") as [-> |Hminus].
    { intros H. exists "-", r. repeat split; try constructor.
      - apply digits_some in H. now destruct H.
      - apply digits_some in H. now destruct H. }
    intros H. exists "", (String c r). split; [reflexivity|].
    split; [constructor|]. now apply digits_some.
  - intros (sign & d & -> & Hsign & Hd).
    pose proof (proj2 (digits_some d) Hd) as Hsome.
    destruct Hsign; [|exact Hsome|exact Hsome].
    rewrite app_nil. destruct d as [|c d]; [discriminate|].
    cbn [some Text.all] in Hsome. apply andb_true_iff in Hsome as [Hc Hall].
    destruct (digit_is_no_mark c Hc) as (-> & -> & _). cbn [orb some Text.all].
    now rewrite Hc, Hall.
Qed.

Lemma exponentOpt_iff (x : string) : exponentOpt x = true <-> ExponentOpt x.
Proof.
  rewrite exponentOpt_spec. split.
  - destruct x as [|c r]; [constructor|].
    intros H. apply andb_true_iff in H as [He Hd].
    apply signed_digits in Hd as (sign & d & -> & Hsign & Hd).
    constructor; [|exact Hsign|exact Hd].
    apply orb_true_iff in He as [He|He]; apply Ascii.eqb_eq in He; auto.
  - intros [|e sign d He Hsign Hd]; [reflexivity|].
    apply andb_true_iff. split.
    + destruct He as [-> | ->]; reflexivity.
    + apply signed_digits. eauto.
Qed.

(** An exponent part, or nothing, does not begin with a digit or a
    point. *)
Lemma exponent_head (x : string) :
  ExponentOpt x ->
  skip isDigit x = x /\
  match x with
  | String c _ => Ascii.eqb c "." = false
  | "" => True
  end.
Proof.
  intros [|e sign d [-> | ->] _ _]; split; reflexivity || exact I.
Qed.

Lemma unsignedDecimal_sound (u : string) :
  unsignedDecimal u = true -> Unsigned u.
Proof.
  rewrite unsignedDecimal_spec.
  destruct (String.eqb_spec u "Infinity") as [-> |_]; [constructor|].
  destruct (skip_span isDigit u) as (i & Hu & Hi).
  assert (Hint : negb (String.eqb (skip isDigit u) u) = true -> i <> "").
  { intros H E. subst i. rewrite app_nil in Hu. rewrite <- Hu in H.
    now rewrite String.eqb_refl in H. }
  destruct (skip isDigit u) as [|c r] eqn:Hk.
  - intros H. rewrite Hu. apply unsigned_integer; [|constructor].
    split; [now apply Hint|exact Hi].
  - destruct (Ascii.eqb_spec c ".") as [-> |Hc].
    + intros H. apply andb_true_iff in H as [Hsome Hx].
      destruct (skip_span isDigit r) as (f & Hr & Hf).
      rewrite Hu, Hr. apply unsigned_point; [exact Hi|exact Hf| |].
      * apply orb_true_iff in Hsome as [H|H]; [left; now apply Hint|].
        right. intros E. subst f. rewrite app_nil in Hr. rewrite <- Hr in H.
        now rewrite String.eqb_refl in H.
      * now apply exponentOpt_iff.
    + intros H. apply andb_true_iff in H as [Hsome Hx].
      rewrite Hu. apply unsigned_integer.
      * split; [now apply Hint|exact Hi].
      * now apply exponentOpt_iff.
Qed.

(** *** From the grammar to the check *)

(** Whether digits were passed over, for digits followed by a text that
    does not begin with one. *)
Lemma passed_eqb (i rest : string) :
  Text.all isDigit i = true ->
  skip isDigit rest = rest ->
  String.eqb (skip isDigit (i +:+ rest)) (i +:+ rest)
  = match i with
    | "" => true
    | String _ _ => false
    end.
Proof.
  intros Hi Hrest. destruct i as [|a i].
  - rewrite app_nil, Hrest. apply String.eqb_refl.
  - rewrite skip_eqb, app_cons. cbn [Text.all] in Hi.
    apply andb_true_iff in Hi as [Ha _]. now rewrite Ha.
Qed.

Lemma unsigned_complete (u : string) :
  Unsigned u -> unsignedDecimal u = true.
Proof.
  intros H. rewrite unsignedDecimal_spec.
  destruct (String.eqb u "Infinity") eqn:Hinf; [reflexivity|].
  destruct H as [|i f x Hi Hf Hsome Hx|i x [Hne Hi] Hx].
  - discriminate.
  - destruct (exponent_head x Hx) as [Hskip _].
    assert (Hpoint : skip isDigit (String "." (f +:+ x)) = String "." (f +:+ x))
      by reflexivity.
    rewrite (passed_eqb i _ Hi Hpoint).
    rewrite (skip_app isDigit i _ Hi), Hpoint.
    cbn [Ascii.eqb Bool.eqb].
    rewrite (passed_eqb f x Hf Hskip).
    rewrite (skip_app isDigit f x Hf), Hskip.
    rewrite (proj2 (exponentOpt_iff x) Hx), andb_true_r.
    destruct i; [|reflexivity]. destruct f; [|reflexivity].
    destruct Hsome; contradiction.
  - destruct (exponent_head x Hx) as [Hskip Hpoint].
    rewrite (passed_eqb i x Hi Hskip).
    rewrite (skip_app isDigit i x Hi), Hskip.
    destruct i as [|a i]; [contradiction|]. cbn [negb andb].
    destruct x as [|c r]; [reflexivity|].
    rewrite Hpoint. now rewrite (proj2 (exponentOpt_iff _) Hx).
Qed.

(** An unsigned literal carries no sign. *)
Lemma unsigned_unsign (u : string) : Unsigned u -> unsign u = u.
Proof.
  intros H. rewrite unsign_spec.
  destruct H as [|i f x Hi _ _ _|i x [Hne Hi] _]; [reflexivity| |].
  - destruct i as [|a i]; [reflexivity|].
    rewrite app_cons. cbn [Text.all] in Hi.
    apply andb_true_iff in Hi as [Ha _].
    now destruct (digit_is_no_mark a Ha) as (-> & -> & _).
  - destruct i as [|a i]; [contradiction|].
    rewrite app_cons. cbn [Text.all] in Hi.
    apply andb_true_iff in Hi as [Ha _].
    now destruct (digit_is_no_mark a Ha) as (-> & -> & _).
Qed.

Lemma unsigned_nonempty (u : string) : Unsigned u -> u <> "".
Proof.
  intros H E. subst u. apply unsigned_complete in H. discriminate.
Qed.

Lemma some_nonempty (class : ascii -> bool) (d : string) :
  some class d = true -> d <> "" /\ Text.all class d = true.
Proof. destruct d; [discriminate|]. intros H. split; [discriminate|exact H]. Qed.

Lemma radix_sound (t : string) (found : Z * string) :
  radix t = Some found -> Numeric t.
Proof.
  rewrite radix_spec.
  destruct t as [|c [|p r]]; try discriminate.
  destruct (Ascii.eqb_spec c "0") as [-> |_]; [|discriminate].
  destruct (Ascii.eqb_spec p "x") as [-> |_]; cbn [orb].
  { destruct (some isHex r) eqn:H; [|discriminate]. intros _.
    destruct (some_nonempty _ _ H). now apply (numeric_radix "x" isHex); [constructor| |]. }
  destruct (Ascii.eqb_spec p "X") as [-> |_].
  { destruct (some isHex r) eqn:H; [|discriminate]. intros _.
    destruct (some_nonempty _ _ H). now apply (numeric_radix "X" isHex); [constructor| |]. }
  destruct (Ascii.eqb_spec p "o") as [-> |_]; cbn [orb].
  { destruct (some isOctal r) eqn:H; [|discriminate]. intros _.
    destruct (some_nonempty _ _ H). now apply (numeric_radix "o" isOctal); [constructor| |]. }
  destruct (Ascii.eqb_spec p "O") as [-> |_].
  { destruct (some isOctal r) eqn:H; [|discriminate]. intros _.
    destruct (some_nonempty _ _ H). now apply (numeric_radix "O" isOctal); [constructor| |]. }
  destruct (Ascii.eqb_spec p "b") as [-> |_]; cbn [orb].
  { destruct (some isBinary r) eqn:H; [|discriminate]. intros _.
    destruct (some_nonempty _ _ H). now apply (numeric_radix "b" isBinary); [constructor| |]. }
  destruct (Ascii.eqb_spec p "B") as [-> |_]; [|discriminate].
  destruct (some isBinary r) eqn:H; [|discriminate]. intros _.
  destruct (some_nonempty _ _ H). now apply (numeric_radix "B" isBinary); [constructor| |].
Qed.

Lemma decimal_sound (t : string) :
  unsignedDecimal (unsign t) = true -> Numeric t.
Proof.
  rewrite unsign_spec. destruct t as [|c r]; [discriminate|].
  destruct (Ascii.eqb_spec c "+") as [-> |Hplus]; cbn [orb].
  { intros H. change (String "+" r) with ("+" +:+ r).
    apply numeric_decimal; [constructor|now apply unsignedDecimal_sound]. }
  destruct (Ascii.eqb_spec c "-") as [-> |Hminus].
  { intros H. change (String "-" r) with ("-" +:+ r).
    apply numeric_decimal; [constructor|now apply unsignedDecimal_sound]. }
  intros H. rewrite <- (app_nil (String c r)).
  apply numeric_decimal; [constructor|now apply unsignedDecimal_sound].
Qed.

(** The test the conversion makes on a trimmed text that is not empty
    accepts the numeric literals and nothing else. *)
Lemma literal_iff (t : string) :
  (t <> "" /\
   some isDigit t || match radix t with
                     | Some _ => true
                     | None => unsignedDecimal (unsign t)
                     end = true) <-> Numeric t.
Proof.
  split.
  - intros [Hne H]. apply orb_true_iff in H as [H|H].
    + rewrite <- (app_nil t). apply numeric_decimal; [constructor|].
      rewrite <- (app_nil_r t). apply unsigned_integer; [|constructor].
      now apply digits_some.
    + destruct (radix t) as [found|] eqn:Hr.
      * exact (radix_sound t found Hr).
      * now apply decimal_sound.
  - intros [sign u Hsign Hu|p class d Hp Hne Hd].
    + split.
      * pose proof (unsigned_nonempty u Hu).
        destruct Hsign; [now rewrite app_nil|discriminate|discriminate].
      * apply orb_true_iff. right.
        destruct (radix (sign +:+ u)); [reflexivity|].
        destruct Hsign.
        -- rewrite app_nil, (unsigned_unsign u Hu). now apply unsigned_complete.
        -- now apply unsigned_complete.
        -- now apply unsigned_complete.
    + split; [discriminate|]. apply orb_true_iff. right.
      rewrite radix_spec. cbn [Ascii.eqb Bool.eqb].
      assert (Hsome : some class d = true)
        by (destruct d; [contradiction|exact Hd]).
      destruct Hp; cbn; now rewrite Hsome.
Qed.

(** The check of the conversion: the trimmed text is empty or a numeric
    literal. *)
Lemma isNumeric_iff (s : string) :
  isNumeric s = true <-> Text.trim s = "" \/ Numeric (Text.trim s).
Proof.
  unfold isNumeric. destruct (Text.trim s) as [|c t] eqn:Ht.
  - split; [now left|reflexivity].
  - split.
    + intros H. right. apply literal_iff. split; [discriminate|exact H].
    + intros [H|H]; [discriminate|]. now apply literal_iff in H as [_ H].
Qed.

(** What the conversion gives, case by case. *)
Lemma coerce_cases (x : option string) (code : number) :
  Coerced x code -> coerce x = code.
Proof.
  intros [|token Hblank|token Hne Hnot]; [reflexivity| |]; cbn [coerce];
    unfold ofString.
  - rewrite (proj2 (isNumeric_iff token) (or_introl Hblank)). cbn [negb].
    now rewrite Hblank.
  - destruct (isNumeric token) eqn:Hnum; [|reflexivity].
    apply isNumeric_iff in Hnum as [H|H]; contradiction.
Qed.

End GrammarFacts.

(* ===================================================================== *)
(** ** The reader: what every run keeps true *)
(* ===================================================================== *)

Module ReaderFacts.

Import Reader Run.

(** The two errors [decode] can return. *)
Lemma decode_error (b : Buf.Buffer) (err : Error) :
  decode b = inl err ->
  err = MissingStatusLine \/ exists header, err = MalformedHeaderLine header.
Proof.
  unfold decode.
  destruct (Text.split (Buf.toString_ascii b) Text.CRLF) as [|firstLine rest].
  - intros [= <-]. now left.
  - destruct firstLine as [|c firstLine].
    + intros [= <-]. now left.
    + destruct (headerLoop ∅ rest) as [header|hs]; [|discriminate].
      intros [= <-]. right. now exists header.
Qed.

Lemma settleAt_resolved (b buffered : Buf.Buffer) (connect : ConnectResponse) :
  settleAt b = Resolved connect buffered ->
  buffered = b /\ decode b = inr connect.
Proof.
  unfold settleAt. destruct (decode b) as [err|c]; [discriminate|].
  intros [= <- <-]. now split.
Qed.

Lemma concat_snoc (l : list Buf.Buffer) (b : Buf.Buffer) :
  List.concat (l ++ [b]) = List.concat l ++ b.
Proof. rewrite concat_app. simpl. now rewrite List.app_nil_r. Qed.

(** Line 56, given the length of line 54. *)
Lemma buffered_exact (l : list Buf.Buffer) (b : Buf.Buffer) (n : nat) :
  n = length (List.concat l) ->
  Buf.concat (l ++ [b]) (n + length b) = List.concat l ++ b.
Proof.
  intros ->.
  assert (E : (length (List.concat l) + length b)%nat
              = length (List.concat (l ++ [b])))
    by (now rewrite concat_snoc, length_app).
  rewrite E, BufFacts.concat_exact. apply concat_snoc.
Qed.

Lemma ondata_open (read : State -> State) (b : Buf.Buffer) (st : State) :
  buffersLength st = length (List.concat (buffers st)) ->
  Buf.indexOf (List.concat (buffers st) ++ b) terminator = -1 ->
  ondata read b st =
  read (mkState (buffersLength st + length b) (buffers st ++ [b])
                (socket st) (promise st)).
Proof.
  intros Hlen Hopen. unfold ondata. cbn [buffers buffersLength].
  rewrite (buffered_exact _ _ _ Hlen).
  fold terminator. now rewrite Hopen.
Qed.

Lemma ondata_complete (read : State -> State) (b : Buf.Buffer) (st : State) :
  buffersLength st = length (List.concat (buffers st)) ->
  Buf.indexOf (List.concat (buffers st) ++ b) terminator <> -1 ->
  ondata read b st =
  let st' := mkState (buffersLength st + length b) (buffers st ++ [b])
                     (socket st) (promise st) in
  match decode (List.concat (buffers st) ++ b) with
  | inl err => reject err (destroy st')
  | inr connect => resolve connect (List.concat (buffers st) ++ b) (cleanup st')
  end.
Proof.
  intros Hlen Hdone. unfold ondata. cbn [buffers buffersLength].
  rewrite (buffered_exact _ _ _ Hlen).
  fold terminator.
  now destruct (Z.eqb_spec (Buf.indexOf (List.concat (buffers st) ++ b) terminator) (-1)).
Qed.

(** The message of [onend] is neither of the two messages of [ondata]. *)
Lemma PrematureEnd_not_structural :
  PrematureEnd <> MissingStatusLine /\
  forall header, PrematureEnd <> MalformedHeaderLine header.
Proof. split; [discriminate|]. intros header. discriminate. Qed.

(** The calls of [read] over the chunks the socket holds: they leave a
    consistent state, lose no chunk, and settle the promise at the first
    chunk that completes a header block. *)
Lemma readFrom_spec (chunks : list Buf.Buffer) (st : State) :
  Reading st ->
  readable (socket st) = chunks ->
  Consistent (readFrom chunks st) /\
  total (readFrom chunks st) = buffers st ++ chunks /\
  promise (readFrom chunks st)
  = settleAt <$> firstComplete (List.concat (buffers st)) chunks.
Proof.
  revert st. induction chunks as [|b rest IH];
    intros [n bs [rd e1 e2 e3 d] p] [Hp He1 He2 He3 Hd Hlen Hopen] Hsock;
    fields; subst.
  - unfold total. cbn. repeat split; cbn; try easy.
    intros [H|[h H]]; discriminate.
  - cbn [readFrom firstComplete]. fields.
    destruct (Z.eqb_spec (Buf.indexOf (List.concat bs ++ b) terminator) (-1))
      as [Hnone|Hdone].
    + rewrite ondata_open; [|reflexivity|assumption]. fields.
      destruct (IH (mkState (length (List.concat bs) + length b) (bs ++ [b])
                            (mkSocket rest true true false false) None))
        as (IHc & IHt & IHp).
      * constructor; fields; try easy.
        -- now rewrite concat_snoc, length_app.
        -- now rewrite concat_snoc.
      * reflexivity.
      * fields. rewrite concat_snoc in IHp.
        split; [exact IHc | split; [| exact IHp]].
        rewrite IHt. now rewrite <- List.app_assoc.
    + rewrite ondata_complete; [|reflexivity|assumption]. fields. cbv zeta.
      assert (Hlast : Some (settleAt (List.concat bs ++ b))
                      = settleAt <$> Some (List.concat bs ++ b)) by reflexivity.
      destruct (decode (List.concat bs ++ b)) as [err|connect] eqn:Hdec.
      * pose proof (decode_error _ _ Hdec) as Herr.
        unfold reject, settle, destroy, total. fields.
        rewrite <- Hlast. unfold settleAt. rewrite Hdec.
        repeat split; fields; try easy.
        -- now rewrite concat_snoc, length_app.
        -- intros _. destruct Herr as [->|[h ->]]; eauto.
        -- now rewrite <- List.app_assoc.
      * unfold resolve, settle, cleanup, total. fields.
        rewrite <- Hlast. unfold settleAt. rewrite Hdec.
        repeat split; fields; try easy.
        -- now rewrite concat_snoc, length_app.
        -- intros [H|[h H]]; discriminate.
        -- match goal with H : Some _ = Some _ |- _ => injection H as <- <- end.
           now rewrite concat_snoc.
        -- match goal with H : Some _ = Some _ |- _ => injection H as <- <- end.
           assumption.
        -- now rewrite <- List.app_assoc.
Qed.

(** The same for the call itself, on a socket no reader has touched. *)
Lemma parse_spec (chunks : list Buf.Buffer) :
  Consistent (parseProxyResponse (fresh chunks)) /\
  total (parseProxyResponse (fresh chunks)) = chunks /\
  promise (parseProxyResponse (fresh chunks))
  = settleAt <$> firstComplete [] chunks.
Proof.
  unfold parseProxyResponse, read, listen, fresh. fields.
  apply (readFrom_spec chunks
           (mkState 0 [] (mkSocket chunks true true false false) None));
    [|reflexivity].
  constructor; reflexivity.
Qed.

(** An event between two consistent states: the invariant is kept, the
    chunks of the event join what the socket held, and a settled promise
    keeps its value. *)
Lemma emit_spec (st : State) (ev : Event) :
  Consistent st ->
  Consistent (emit st ev) /\
  total (emit st ev) = total st ++ chunksOf ev /\
  (forall v, promise st = Some v -> promise (emit st ev) = Some v).
Proof.
  intros [Hlen Hpend Hset Hdes Hres].
  destruct st as [n bs [rd e1 e2 e3 d] [v|]]; fields.
  - (* settled: no call of [read] can follow *)
    assert (e3 = false) as -> by (now apply Hset).
    destruct ev as [chunks| |err]; cbn [emit chunksOf]; fields.
    + unfold total. fields. split; [|split; [now rewrite List.app_assoc|easy]].
      constructor; fields; easy.
    + destruct e2; unfold onend, reject, settle, cleanup, total; fields;
        (split; [|split; [now rewrite List.app_nil_r|easy]]);
        constructor; fields; easy.
    + destruct e1; unfold onerror, reject, settle, cleanup, total; fields;
        (split; [|split; [now rewrite List.app_nil_r|easy]]);
        constructor; fields; easy.
  - (* pending *)
    destruct (Hpend eq_refl) as (-> & -> & -> & -> & -> & Hopen).
    destruct ev as [chunks| |err]; cbn [emit chunksOf]; fields.
    + unfold read, takeReadListener. fields.
      cbn [app].
      destruct (readFrom_spec chunks
                  (mkState n bs (mkSocket chunks true true false false) None))
        as (Hc & Ht & _); [constructor; fields; easy | reflexivity |].
      fields. split; [exact Hc|]. split; [|discriminate].
      rewrite Ht. unfold total. fields. now rewrite List.app_nil_r.
    + unfold onend, reject, settle, cleanup, total. fields.
      split; [|split; [now rewrite !List.app_nil_r|discriminate]].
      constructor; fields; try easy.
      split; [discriminate|]. intros [H|[h H]]; discriminate.
    + unfold onerror, reject, settle, cleanup, total. fields.
      split; [|split; [now rewrite !List.app_nil_r|discriminate]].
      constructor; fields; try easy.
      split; [discriminate|]. intros [H|[h H]]; discriminate.
Qed.

Lemma run_snoc (chunks : list Buf.Buffer) (events : list Event) (ev : Event) :
  run chunks (events ++ [ev]) = emit (run chunks events) ev.
Proof. unfold run. now rewrite fold_left_app. Qed.

Lemma delivered_snoc (events : list Event) (ev : Event) :
  delivered (events ++ [ev]) = delivered events ++ chunksOf ev.
Proof.
  unfold delivered. rewrite fmap_app, concat_app. simpl.
  now rewrite List.app_nil_r.
Qed.

(** Every run is consistent and loses no chunk. *)
Lemma run_spec (chunks : list Buf.Buffer) (events : list Event) :
  Consistent (run chunks events) /\
  total (run chunks events) = chunks ++ delivered events.
Proof.
  induction events as [|ev events IH] using rev_ind.
  - destruct (parse_spec chunks) as (Hc & Ht & _).
    unfold run, delivered. simpl. now rewrite List.app_nil_r.
  - destruct IH as [IHc IHt].
    destruct (emit_spec _ ev IHc) as (Hc & Ht & _).
    rewrite run_snoc, delivered_snoc. split; [exact Hc|].
    now rewrite Ht, IHt, List.app_assoc.
Qed.

(** *** Runs in which the stream only delivers data *)

Lemma firstComplete_app (acc : Buf.Buffer) (l1 l2 : list Buf.Buffer) :
  firstComplete acc (l1 ++ l2) =
  match firstComplete acc l1 with
  | Some b => Some b
  | None => firstComplete (acc ++ List.concat l1) l2
  end.
Proof.
  revert acc. induction l1 as [|b l1 IH]; intros acc.
  - simpl. now rewrite List.app_nil_r.
  - cbn [firstComplete app List.concat].
    destruct (Buf.indexOf (acc ++ b) terminator =? -1); [|reflexivity].
    now rewrite IH, List.app_assoc.
Qed.

(** No chunk completes a header block when the whole delivery holds no
    terminator. *)
Lemma firstComplete_none (acc : Buf.Buffer) (chunks : list Buf.Buffer) :
  Buf.indexOf (acc ++ List.concat chunks) terminator = -1 ->
  firstComplete acc chunks = None.
Proof.
  revert acc. induction chunks as [|b rest IH]; intros acc Hno; [reflexivity|].
  cbn [firstComplete List.concat] in *.
  rewrite List.app_assoc in Hno.
  pose proof (BufFacts.index_bytes_shorter _ _ _ Hno) as Hb.
  unfold Buf.indexOf in *. rewrite Hb. simpl (_ =? _). now apply IH.
Qed.

Lemma emit_readable_pending (st : State) (chunks : list Buf.Buffer) :
  Consistent st ->
  promise st = None ->
  promise (emit st (Readable chunks))
  = settleAt <$> firstComplete (List.concat (buffers st)) chunks.
Proof.
  intros [Hlen Hpend Hset Hdes Hres] Hnone.
  destruct st as [n bs [rd e1 e2 e3 d] p]; fields. subst p.
  destruct (Hpend eq_refl) as (-> & -> & -> & -> & -> & Hopen).
  cbn [emit]. fields. unfold read, takeReadListener. fields. cbn [app].
  now destruct (readFrom_spec chunks
                  (mkState n bs (mkSocket chunks true true false false) None))
    as (_ & _ & Hp); [constructor; fields; easy | reflexivity |].
Qed.

Lemma delivered_readables (ds : list (list Buf.Buffer)) :
  delivered (Readable <$> ds) = List.concat ds.
Proof.
  unfold delivered. induction ds as [|d ds IH]; [reflexivity|].
  rewrite !fmap_cons. cbn [List.concat chunksOf]. now rewrite IH.
Qed.

(** The promise after data only: settled at the first chunk that completes
    a header block, pending when none does. *)
Lemma run_readables (chunks : list Buf.Buffer) (ds : list (list Buf.Buffer)) :
  promise (run chunks (Readable <$> ds))
  = settleAt <$> firstComplete [] (chunks ++ List.concat ds).
Proof.
  induction ds as [|d ds IH] using rev_ind.
  - simpl. rewrite List.app_nil_r. apply parse_spec.
  - rewrite fmap_app.
    change (Readable <$> [d]) with [Readable d]. rewrite run_snoc.
    destruct (run_spec chunks (Readable <$> ds)) as [Hc Ht].
    rewrite delivered_readables in Ht.
    rewrite concat_app. cbn [List.concat].
    rewrite List.app_nil_r, List.app_assoc.
    rewrite firstComplete_app.
    destruct (promise (run chunks (Readable <$> ds))) as [v|] eqn:Hp.
    + destruct (emit_spec _ (Readable d) Hc) as (_ & _ & Hkeep).
      rewrite (Hkeep _ Hp).
      destruct (firstComplete [] (chunks ++ List.concat ds)); [exact IH|discriminate].
    + rewrite (emit_readable_pending _ _ Hc Hp).
      destruct (firstComplete [] (chunks ++ List.concat ds)); [discriminate|].
      destruct Hc as [_ Hpend _ _ _].
      destruct (Hpend Hp) as (_ & _ & _ & Hrd & _).
      unfold total in Ht. rewrite Hrd, List.app_nil_r in Ht. now rewrite Ht.
Qed.


(** *** A header block with nothing after it *)

Lemma terminator_length : length (Buf.of_string terminator) = 4%nat.
Proof. reflexivity. Qed.

(** Before its last chunk, such a block holds no terminator. *)
Lemma closes_proper_prefix (a b : Buf.Buffer) :
  closes (a ++ b) -> b <> [] -> Buf.indexOf a terminator = -1.
Proof.
  intros [Hyes Hend] Hb. unfold Buf.indexOf in *.
  destruct (Z.eq_dec (Buf.index_bytes a (Buf.of_string terminator)) (-1)) as [|Hn];
    [assumption|].
  pose proof (BufFacts.index_bytes_fits _ _ Hn) as Hfit.
  rewrite (BufFacts.index_bytes_stable _ b _ Hn) in Hend.
  rewrite terminator_length in Hfit. rewrite length_app in Hend.
  destruct b; [contradiction|]. simpl length in Hend. lia.
Qed.

Lemma firstComplete_closes (chunks : list Buf.Buffer) (acc : Buf.Buffer) :
  chunks <> [] ->
  Forall (λ b, b <> []) chunks ->
  closes (acc ++ List.concat chunks) ->
  firstComplete acc chunks = Some (acc ++ List.concat chunks).
Proof.
  revert acc. induction chunks as [|b rest IH]; intros acc Hne Hall Hclose;
    [congruence|].
  inversion Hall as [|? ? Hb Hrest]; subst.
  cbn [firstComplete List.concat] in *.
  destruct rest as [|b' rest].
  - cbn [List.concat] in *. rewrite List.app_nil_r in *.
    destruct Hclose as [Hyes _].
    now destruct (Z.eqb_spec (Buf.indexOf (acc ++ b) terminator) (-1)).
  - rewrite List.app_assoc in Hclose.
    assert (Hopen : Buf.indexOf (acc ++ b) terminator = -1).
    { apply (closes_proper_prefix _ _ Hclose).
      inversion Hrest as [|? ? Hb' _]; subst.
      cbn [List.concat]. destruct b'; [contradiction|discriminate]. }
    rewrite Hopen. simpl (_ =? _).
    rewrite IH; [now rewrite List.app_assoc|discriminate|exact Hrest|exact Hclose].
Qed.

Lemma concat_singletons (chunks : list Buf.Buffer) :
  List.concat ((λ b, [b]) <$> chunks) = chunks.
Proof.
  induction chunks as [|b chunks IH]; [reflexivity|].
  rewrite fmap_cons. cbn [List.concat app]. now rewrite IH.
Qed.

Lemma deliver_promise (chunks : list Buf.Buffer) :
  promise (deliver chunks) = settleAt <$> firstComplete [] chunks.
Proof.
  unfold deliver. rewrite run_readables. cbn [app].
  now rewrite concat_singletons.
Qed.

(** A header block with nothing after it settles the promise the same way
    however it is cut into chunks that are not empty. *)
Theorem chunking_without_trailing_bytes (chunks : list Buf.Buffer) :
  chunks <> [] ->
  Forall (λ b, b <> []) chunks ->
  closes (List.concat chunks) ->
  promise (deliver chunks) = promise (deliver [List.concat chunks]).
Proof.
  intros Hne Hall Hclose. rewrite !deliver_promise.
  rewrite (firstComplete_closes chunks [] Hne Hall Hclose).
  cbn [firstComplete app]. destruct Hclose as [Hyes _].
  now destruct (Z.eqb_spec (Buf.indexOf (List.concat chunks) terminator) (-1)).
Qed.

(** *** After the promise has settled *)

(** A settled promise keeps its value whatever the stream does next. *)
Theorem settled_for_good (chunks : list Buf.Buffer) (events more : list Event)
    (v : Settled) :
  promise (run chunks events) = Some v ->
  promise (run chunks (events ++ more)) = Some v.
Proof.
  intros Hv. induction more as [|ev more IH] using rev_ind.
  - now rewrite List.app_nil_r.
  - rewrite List.app_assoc, run_snoc.
    destruct (run_spec chunks (events ++ more)) as [Hc _].
    now apply (emit_spec _ ev Hc).
Qed.

(** Unless the socket was destroyed, the listeners are off once the
    promise has settled. *)
Theorem detached_unless_destroyed (chunks : list Buf.Buffer) (events : list Event) :
  promise (run chunks events) <> None ->
  destroyed (socket (run chunks events)) = false ->
  onEndListener (socket (run chunks events)) = false /\
  onErrorListener (socket (run chunks events)) = false /\
  readListener (socket (run chunks events)) = false.
Proof.
  intros Hset Halive.
  destruct (run_spec chunks events) as [[_ _ Hread _ _ Hoff] _].
  destruct (Hoff Hset Halive) as [He Hr]. auto.
Qed.

(** *** A valid response holds its only terminator at its end *)

Lemma terminator_bytes : Buf.of_string terminator = [x0d; x0a; x0d; x0a].
Proof. reflexivity. Qed.

Lemma closes_last_line (l : string) :
  Text.has Text.CR l = false ->
  closes (Buf.of_string l ++ [x0d; x0a; x0d; x0a]).
Proof.
  intros Hl. unfold closes, Buf.indexOf. rewrite terminator_bytes.
  rewrite BufFacts.index_bytes_skip;
    [|now apply BufFacts.bytes_without_cr|discriminate].
  change (Buf.index_bytes [x0d; x0a; x0d; x0a] [x0d; x0a; x0d; x0a]) with 0.
  rewrite length_app. simpl length. lia.
Qed.

Lemma closes_next_line (l : string) (b0 : byte) (B : Buf.Buffer) :
  Text.has Text.CR l = false ->
  Byte.eqb x0d b0 = false ->
  closes (b0 :: B) ->
  closes (Buf.of_string l ++ [x0d; x0a] ++ b0 :: B).
Proof.
  intros Hl Hb0 [Hyes Hend]. unfold closes, Buf.indexOf in *.
  rewrite terminator_bytes in *.
  assert (Hstep : Buf.index_bytes ([x0d; x0a] ++ b0 :: B) [x0d; x0a; x0d; x0a]
                  = 2 + Buf.index_bytes (b0 :: B) [x0d; x0a; x0d; x0a]).
  { pose proof (BufFacts.index_bytes_lower (b0 :: B) [x0d; x0a; x0d; x0a]) as Hlow.
    remember (Buf.index_bytes (b0 :: B) [x0d; x0a; x0d; x0a]) as k eqn:Hk.
    cbn [app].
    rewrite (BufFacts.index_bytes_cons x0d (x0a :: b0 :: B)).
    rewrite (BufFacts.index_bytes_cons x0a (b0 :: B)).
    rewrite <- Hk. cbn [Buf.startsWith]. rewrite Hb0.
    change (Byte.eqb x0d x0d) with true. change (Byte.eqb x0a x0a) with true.
    change (Byte.eqb x0d x0a) with false. cbv iota.
    destruct (Z.eqb_spec k (-1)); [contradiction|].
    destruct (Z.eqb_spec (k + 1) (-1)); lia. }
  pose proof (BufFacts.index_bytes_lower (b0 :: B) [x0d; x0a; x0d; x0a]).
  rewrite BufFacts.index_bytes_skip;
    [|now apply BufFacts.bytes_without_cr|rewrite Hstep; lia].
  rewrite Hstep, !length_app. simpl length in *. lia.
Qed.

End ReaderFacts.

(* ===================================================================== *)
(** ** The headers object and the loop that fills it *)
(* ===================================================================== *)

Module HeaderFacts.

Import Headers Reader Wire.

Lemma set_same (hs : Headers.t) (k : string) (v : value) :
  k <> protoKey -> set hs k v !! k = Some v.
Proof.
  intros Hk. unfold set.
  destruct (String.eqb_spec k protoKey); [contradiction|].
  apply lookup_insert_eq.
Qed.

Lemma set_other (hs : Headers.t) (k k' : string) (v : value) :
  k' <> k -> set hs k v !! k' = hs !! k'.
Proof.
  intros Hk. unfold set.
  destruct (String.eqb_spec k protoKey); [reflexivity|].
  now apply lookup_insert_ne.
Qed.

(** The three-way update at its own key. *)
Lemma add_same (hs : Headers.t) (k v : string) :
  k <> protoKey -> add hs k v !! k = Some (push (hs !! k) v).
Proof.
  intros Hk. unfold add, get, push.
  destruct (hs !! k) as [[s|items]|].
  - now apply set_same.
  - apply lookup_insert_eq.
  - now apply set_same.
Qed.

Lemma add_other (hs : Headers.t) (k k' v : string) :
  k' <> k -> add hs k v !! k' = hs !! k'.
Proof.
  intros Hk. unfold add, get.
  destruct (hs !! k) as [[s|items]|].
  - now apply set_other.
  - now apply lookup_insert_ne.
  - now apply set_other.
Qed.

(** The key an object literal does not store stays absent. *)
Lemma add_proto (hs : Headers.t) (v : string) :
  hs !! protoKey = None -> add hs protoKey v = hs.
Proof.
  intros Hnone. unfold add, get. rewrite Hnone.
  unfold set. now rewrite String.eqb_refl.
Qed.

Lemma add_keeps_proto (hs : Headers.t) (k v : string) :
  hs !! protoKey = None -> add hs k v !! protoKey = None.
Proof.
  intros Hnone. destruct (String.eqb_spec k protoKey) as [->|Hk].
  - now rewrite add_proto.
  - rewrite add_other; [assumption|]. congruence.
Qed.

Lemma headerLoop_empty (hs : Headers.t) (rest : list string) :
  headerLoop hs ("" :: rest) = headerLoop hs rest.
Proof. reflexivity. Qed.

Lemma headerLoop_colon (hs : Headers.t) (header : string) (rest : list string) :
  header <> "" ->
  Text.indexOf header ":" <> -1 ->
  headerLoop hs (header :: rest)
  = headerLoop (add hs (keyOf header) (valueOf header)) rest.
Proof.
  intros Hne Hcolon. cbn [headerLoop].
  destruct (String.eqb_spec header ""); [contradiction|].
  now destruct (Z.eqb_spec (Text.indexOf header ":") (-1)).
Qed.

(** The early return of line 83. *)
Lemma headerLoop_bad (hs : Headers.t) (header : string) (rest : list string) :
  header <> "" ->
  Text.indexOf header ":" = -1 ->
  headerLoop hs (header :: rest) = inl header.
Proof.
  intros Hne Hcolon. cbn [headerLoop].
  destruct (String.eqb_spec header ""); [contradiction|].
  now rewrite Hcolon.
Qed.

Lemma collect_arr (items values : list string) :
  collect (Some (Arr items)) values = Some (Arr (items ++ values)).
Proof.
  revert items. induction values as [|v values IH]; intros items.
  - simpl. now rewrite List.app_nil_r.
  - unfold collect in *. cbn [fold_left push].
    rewrite IH. now rewrite <- List.app_assoc.
Qed.

(** From nothing: one value stays a string, more become the array of all
    of them in order. *)
Lemma collect_none (values : list string) :
  collect None values = gathered values.
Proof.
  destruct values as [|v [|w values]]; try reflexivity.
  unfold collect. cbn [fold_left push].
  apply (collect_arr [v; w] values).
Qed.

Lemma collect_cons (cur : option value) (v : string) (values : list string) :
  collect cur (v :: values) = collect (Some (push cur v)) values.
Proof. reflexivity. Qed.

(** The loop over lines that all have a colon or are empty: it does not
    return early, and every key but [__proto__] ends up with the values of
    its lines, in order. *)
Lemma headerLoop_lookup (lines : list string) (hs : Headers.t) :
  forallb wellFormed lines = true ->
  exists hs',
    headerLoop hs lines = inr hs' /\
    (forall k, k <> protoKey ->
               hs' !! k = collect (hs !! k) (valuesFor k lines)) /\
    (hs !! protoKey = None -> hs' !! protoKey = None).
Proof.
  revert hs. induction lines as [|header rest IH]; intros hs Hwf.
  - exists hs. repeat split; auto.
  - cbn [forallb] in Hwf. apply andb_true_iff in Hwf as [Hh Hrest].
    destruct (String.eqb_spec header "") as [->|Hne].
    + rewrite headerLoop_empty. cbn [valuesFor String.eqb]. now apply IH.
    + unfold wellFormed in Hh.
      destruct (String.eqb_spec header ""); [contradiction|].
      cbn [orb] in Hh. apply negb_true_iff in Hh.
      apply Z.eqb_neq in Hh.
      rewrite headerLoop_colon by assumption.
      destruct (IH (add hs (keyOf header) (valueOf header)) Hrest)
        as (hs' & Hrun & Hlook & Hproto).
      exists hs'. split; [exact Hrun|]. split.
      * intros k Hk. rewrite (Hlook k Hk). cbn [valuesFor].
        destruct (String.eqb_spec header ""); [contradiction|].
        destruct (String.eqb_spec (keyOf header) k) as [->|Hkey].
        -- rewrite collect_cons. now rewrite add_same.
        -- rewrite add_other; [reflexivity|congruence].
      * intros Hnone. apply Hproto. now apply add_keeps_proto.
Qed.

Lemma valuesFor_app (k : string) (l1 l2 : list string) :
  valuesFor k (l1 ++ l2) = valuesFor k l1 ++ valuesFor k l2.
Proof.
  induction l1 as [|header l1 IH]; [reflexivity|].
  cbn [app valuesFor].
  destruct (String.eqb header ""); [exact IH|].
  destruct (String.eqb (keyOf header) k); [|exact IH].
  now rewrite IH.
Qed.

End HeaderFacts.

(* ===================================================================== *)
(** ** Well-formed responses *)
(* ===================================================================== *)

Module WireFacts.

Import Reader Run Wire TextFacts ReaderFacts.

(** Lines 80, 89 and 90 on a line made of a name without a colon, a colon
    and a value. *)
Lemma headerLine_parts (name value : string) :
  Text.has ":" name = false ->
  Text.indexOf (headerLine name value) ":" = Z.of_nat (Text.len name) /\
  keyOf (headerLine name value) = Text.toLowerCase name /\
  valueOf (headerLine name value) = Text.trimStart value.
Proof.
  intros Hname. unfold keyOf, valueOf, headerLine.
  change (name +:+ ":" +:+ value) with (name +:+ String ":" value).
  rewrite (indexOf_char ":" name value Hname).
  now rewrite slice_before, slice_after.
Qed.

Lemma validHeader_wellFormed (header : string) :
  validHeader header = true -> wellFormed header = true.
Proof.
  unfold validHeader, wellFormed. intros H.
  apply andb_true_iff in H as [_ Hcolon].
  apply indexOf_present in Hcolon. apply Z.eqb_neq in Hcolon.
  rewrite Hcolon. apply orb_true_r.
Qed.

Lemma plain_parts (s : string) :
  plain s = true ->
  Text.all Text.is7bit s = true /\ Text.has Text.CR s = false /\
  Text.has Text.LF s = false.
Proof.
  unfold plain. intros H.
  apply andb_true_iff in H as [H Hlf]. apply andb_true_iff in H as [H7 Hcr].
  apply negb_true_iff in Hcr, Hlf. auto.
Qed.

Lemma word_parts (s : string) :
  word s = true -> plain s = true /\ Text.has " " s = false.
Proof.
  unfold word. intros H. apply andb_true_iff in H as [Hp Hs].
  apply negb_true_iff in Hs. auto.
Qed.

Lemma code_is_word (code : string) :
  validCode code = true -> word code = true /\ code <> "".
Proof.
  unfold validCode. intros H. apply andb_true_iff in H as [Hsome _].
  destruct (NumFacts.some_all _ _ Hsome) as [Hall Hne].
  split; [|exact Hne]. unfold word, plain.
  rewrite (NumFacts.all_impl Num.isDigit Text.is7bit)
    by (try exact Hall; intros c Hc; apply (NumFacts.digit_facts c Hc)).
  rewrite !(NumFacts.has_none Num.isDigit)
    by (try exact Hall; intros c Hc; apply (NumFacts.digit_facts c Hc)).
  reflexivity.
Qed.

Lemma forallb_impl {A : Type} (p q : A -> bool) (l : list A) :
  (forall x, p x = true -> q x = true) ->
  forallb p l = true -> forallb q l = true.
Proof.
  intros Hpq. induction l as [|x l IH]; [reflexivity|].
  cbn [forallb]. intros H. apply andb_true_iff in H as [Hx Hl].
  now rewrite (Hpq x Hx), IH.
Qed.

(** The words of a valid status line. *)
Lemma statusLine_words (version code : string) (reason : list string) :
  validStatus version code reason = true ->
  forallb word (version :: code :: reason) = true /\ code <> "".
Proof.
  unfold validStatus. intros H.
  apply andb_true_iff in H as [H Hreason]. apply andb_true_iff in H as [Hv Hc].
  destruct (code_is_word code Hc) as [Hcw Hne].
  cbn [forallb]. now rewrite Hv, Hcw, Hreason.
Qed.

Lemma statusLine_split (version code : string) (reason : list string) :
  validStatus version code reason = true ->
  Text.split (statusLine version code reason) " " = version :: code :: reason.
Proof.
  intros H. destruct (statusLine_words _ _ _ H) as [Hw _].
  unfold statusLine. apply (SplitFacts.split_join " " ""); [discriminate|].
  apply List.Forall_forall. intros w Hin.
  rewrite forallb_forall in Hw. now apply word_parts, Hw.
Qed.

Lemma statusLine_plain (version code : string) (reason : list string) :
  validStatus version code reason = true ->
  plain (statusLine version code reason) = true.
Proof.
  intros H. destruct (statusLine_words _ _ _ H) as [Hw _].
  unfold statusLine, plain.
  rewrite all_join; [|reflexivity|].
  2:{ apply (forallb_impl word); [|exact Hw].
      intros w Hword. now apply plain_parts, word_parts. }
  rewrite !has_join; try reflexivity;
    (apply (forallb_impl word); [|exact Hw]);
    intros w Hword; apply negb_true_iff; now apply plain_parts, word_parts.
Qed.

Lemma statusLine_nonempty (version code : string) (reason : list string) :
  validStatus version code reason = true ->
  exists c rest, statusLine version code reason = String c rest.
Proof.
  intros _. unfold statusLine. rewrite join_cons.
  destruct version as [|c version]; [rewrite app_nil|]; rewrite app_cons; eauto.
Qed.

(** The lines of a response, as line 66 sees them. *)
Lemma response_lines (first : string) (headerLines : list string) :
  response first headerLines
  = Text.join (first :: headerLines ++ [""; ""]) Text.CRLF.
Proof.
  unfold response.
  change (first :: headerLines ++ [""; ""])
    with ((first :: headerLines) ++ [""; ""]).
  change [""; ""] with ([""] ++ [""]).
  rewrite List.app_assoc.
  rewrite join_snoc by (now destruct headerLines).
  rewrite join_snoc by discriminate.
  now rewrite !app_nil_r, app_assoc.
Qed.

Lemma response_split (first : string) (headerLines : list string) :
  plain first = true ->
  forallb plain headerLines = true ->
  Text.split (response first headerLines) Text.CRLF
  = first :: headerLines ++ [""; ""].
Proof.
  intros Hfirst Hlines. rewrite response_lines.
  apply (SplitFacts.split_join Text.CR (String Text.LF "")); [discriminate|].
  apply List.Forall_forall. intros l Hin.
  destruct Hin as [<-|Hin]; [now apply plain_parts|].
  apply in_app_or in Hin as [Hin|Hin].
  - rewrite forallb_forall in Hlines. now apply plain_parts, Hlines.
  - destruct Hin as [<-|[<-|[]]]; reflexivity.
Qed.

Lemma response_7bit (first : string) (headerLines : list string) :
  plain first = true ->
  forallb plain headerLines = true ->
  Text.all Text.is7bit (response first headerLines) = true.
Proof.
  intros Hfirst Hlines. rewrite response_lines.
  apply all_join; [reflexivity|].
  cbn [forallb]. rewrite (proj1 (plain_parts _ Hfirst)). cbn [andb].
  rewrite forallb_app. cbn [forallb Text.all]. rewrite andb_true_r.
  apply (forallb_impl plain); [|exact Hlines].
  intros l Hl. now apply plain_parts.
Qed.

Lemma response_terminated (first : string) (headerLines : list string) :
  Buf.indexOf (Buf.of_string (response first headerLines)) terminator <> -1.
Proof.
  unfold response.
  change (Text.CRLF +:+ Text.CRLF) with terminator.
  rewrite <- (app_nil_r terminator) at 1.
  apply BufFacts.indexOf_found.
Qed.

(** One chunk that holds a terminator settles the promise at once. *)
Lemma deliver_one (input : Buf.Buffer) :
  Buf.indexOf input terminator <> -1 ->
  promise (deliver [input]) = Some (settleAt input).
Proof.
  intros Hdone. unfold deliver.
  rewrite ReaderFacts.run_readables. cbn [fmap list_fmap List.concat app firstComplete].
  now destruct (Z.eqb_spec (Buf.indexOf input terminator) (-1)).
Qed.

(** A valid response read in one chunk: the status code is the value of
    its digits, the status text the words of the reason, and every key but
    [__proto__] holds the values of its lines in order, a single one as a
    string, several as an array. *)
Theorem valid_response_in_one_chunk (version code : string)
    (reason headerLines : list string) :
  validStatus version code reason = true ->
  forallb validHeader headerLines = true ->
  exists headers,
    promise (deliver [Buf.of_string
                        (response (statusLine version code reason) headerLines)])
    = Some (Resolved
              (mkConnect (Num.Int (Num.value 10 code))
                         (Text.join reason " ") headers)
              (Buf.of_string (response (statusLine version code reason) headerLines)))
    /\ headers !! Headers.protoKey = None
    /\ forall key, key <> Headers.protoKey ->
                   headers !! key = gathered (valuesFor key headerLines).
Proof.
  intros Hstatus Hheaders.
  assert (Hplain : forallb plain headerLines = true).
  { apply (forallb_impl validHeader); [|exact Hheaders].
    unfold validHeader. intros l Hl. now apply andb_true_iff in Hl as [Hl _]. }
  assert (Hwf : forallb wellFormed (headerLines ++ [""; ""]) = true).
  { rewrite forallb_app. cbn [forallb wellFormed]. rewrite andb_true_r.
    apply (forallb_impl validHeader); [|exact Hheaders].
    apply validHeader_wellFormed. }
  destruct (HeaderFacts.headerLoop_lookup _ ∅ Hwf) as (headers & Hloop & Hlook & Hproto).
  exists headers. split; [|split].
  - rewrite (deliver_one _ (response_terminated _ _)).
    f_equal. unfold settleAt, decode.
    rewrite BufFacts.toString_of_string
      by (apply response_7bit; [now apply statusLine_plain|exact Hplain]).
    rewrite response_split by (try exact Hplain; now apply statusLine_plain).
    pose proof (statusLine_split _ _ _ Hstatus) as Hsplit.
    destruct (statusLine_nonempty _ _ _ Hstatus) as (c & rest & Hline).
    rewrite Hline in *. rewrite Hsplit.
    cbn [lookup list_lookup drop].
    change ((version :: code :: reason) !! 1%nat) with (Some code).
    rewrite (NumFacts.coerce_valid code).
    2:{ unfold validStatus in Hstatus.
        apply andb_true_iff in Hstatus as [Hs _].
        now apply andb_true_iff in Hs as [_ Hc]. }
    now rewrite Hloop.
  - now apply Hproto.
  - intros key Hkey. rewrite (Hlook key Hkey).
    rewrite lookup_empty, HeaderFacts.collect_none.
    rewrite HeaderFacts.valuesFor_app. cbn [valuesFor String.eqb].
    now rewrite List.app_nil_r.
Qed.

Lemma valuesFor_In (key header : string) (lines : list string) :
  In header lines -> header <> "" -> keyOf header = key ->
  In (valueOf header) (valuesFor key lines).
Proof.
  intros Hin Hne Hkey. induction lines as [|l lines IH]; [contradiction|].
  cbn [valuesFor]. destruct Hin as [->|Hin].
  - destruct (String.eqb_spec header ""); [contradiction|].
    rewrite Hkey, String.eqb_refl. now left.
  - destruct (String.eqb l ""); [now apply IH|].
    destruct (String.eqb (keyOf l) key); [right|]; now apply IH.
Qed.

Lemma gathered_In (v : string) (vs : list string) :
  In v vs -> exists hv, gathered vs = Some hv /\ In v (values hv).
Proof.
  destruct vs as [|a [|b vs]]; intros Hin; [contradiction| |].
  - exists (Headers.Str a). now split.
  - exists (Headers.Arr (a :: b :: vs)). now split.
Qed.

Lemma fieldLine_valid (field : string * string) :
  validField field = true -> validHeader (fieldLine field) = true.
Proof.
  destruct field as [name value]. unfold validField, fieldLine, validHeader.
  cbn [fst snd]. intros H.
  apply andb_true_iff in H as [H Hv]. apply andb_true_iff in H as [Hn Hcolon].
  destruct (plain_parts _ Hn) as (Hn7 & Hncr & Hnlf).
  destruct (plain_parts _ Hv) as (Hv7 & Hvcr & Hvlf).
  unfold headerLine, plain.
  rewrite !all_app, !has_app, Hn7, Hv7, Hncr, Hvcr, Hnlf, Hvlf.
  cbn. now rewrite orb_true_r.
Qed.

(** Every declared header of a valid response read in one chunk is found
    under its lower-cased name, its value without the leading white space
    among the values stored there, unless the name is [__proto__]. *)
Theorem declared_headers_are_stored (version code : string)
    (reason : list string) (fields : list (string * string)) :
  validStatus version code reason = true ->
  forallb validField fields = true ->
  exists headers,
    promise (deliver [Buf.of_string
                        (response (statusLine version code reason)
                                  (fieldLine <$> fields))])
    = Some (Resolved
              (mkConnect (Num.Int (Num.value 10 code))
                         (Text.join reason " ") headers)
              (Buf.of_string (response (statusLine version code reason)
                                       (fieldLine <$> fields))))
    /\ forall name value,
         In (name, value) fields ->
         Text.toLowerCase name <> Headers.protoKey ->
         exists hv, headers !! Text.toLowerCase name = Some hv /\
                    In (Text.trimStart value) (values hv).
Proof.
  intros Hstatus Hfields.
  assert (Hlines : forallb validHeader (fieldLine <$> fields) = true).
  { apply forallb_forall. intros l Hin.
    apply in_map_iff in Hin as (field & <- & Hin).
    rewrite forallb_forall in Hfields. now apply fieldLine_valid, Hfields. }
  destruct (valid_response_in_one_chunk _ _ _ _ Hstatus Hlines)
    as (headers & Hp & _ & Hlook).
  exists headers. split; [exact Hp|].
  intros name value Hin Hkey.
  rewrite (Hlook _ Hkey). apply gathered_In.
  rewrite forallb_forall in Hfields. pose proof (Hfields _ Hin) as Hvalid.
  unfold validField in Hvalid. cbn [fst snd] in Hvalid.
  apply andb_true_iff in Hvalid as [Hvalid _].
  apply andb_true_iff in Hvalid as [_ Hcolon]. apply negb_true_iff in Hcolon.
  destruct (headerLine_parts name value Hcolon) as (_ & Hk & Hv).
  rewrite <- Hv. apply valuesFor_In.
  - apply in_map_iff. now exists (name, value).
  - unfold headerLine. destruct name; discriminate.
  - exact Hk.
Qed.

(** A name sent twice, then three times: the array of its values in the
    order of the lines. *)
Theorem repeated_header_keeps_order (version code : string)
    (reason headerLines : list string) (key a b c : string) :
  validStatus version code reason = true ->
  forallb validHeader headerLines = true ->
  key <> Headers.protoKey ->
  exists headers,
    promise (deliver [Buf.of_string
                        (response (statusLine version code reason) headerLines)])
    = Some (Resolved
              (mkConnect (Num.Int (Num.value 10 code))
                         (Text.join reason " ") headers)
              (Buf.of_string (response (statusLine version code reason) headerLines)))
    /\ (valuesFor key headerLines = [a] ->
        headers !! key = Some (Headers.Str a))
    /\ (valuesFor key headerLines = [a; b] ->
        headers !! key = Some (Headers.Arr [a; b]))
    /\ (valuesFor key headerLines = [a; b; c] ->
        headers !! key = Some (Headers.Arr [a; b; c])).
Proof.
  intros Hstatus Hlines Hkey.
  destruct (valid_response_in_one_chunk _ _ _ _ Hstatus Hlines)
    as (headers & Hp & _ & Hlook).
  exists headers. split; [exact Hp|].
  rewrite (Hlook _ Hkey). repeat split; intros ->; reflexivity.
Qed.

(** *** Valid responses cut into chunks *)

Lemma response_cons (l l2 : string) (rest : list string) :
  response l (l2 :: rest) = l +:+ Text.CRLF +:+ response l2 rest.
Proof. unfold response. rewrite join_cons. now rewrite !app_assoc. Qed.

(** The only terminator of a response whose lines are free of CR, the
    header lines not empty, is the one that ends it. *)
Lemma response_closes (first : string) (lines : list string) :
  Text.has Text.CR first = false ->
  forallb (λ l, negb (Text.has Text.CR l) && negb (String.eqb l "")) lines = true ->
  closes (Buf.of_string (response first lines)).
Proof.
  revert first. induction lines as [|l2 rest IH]; intros first Hfirst Hlines.
  - unfold response. cbn [Text.join]. rewrite BufFacts.of_string_app.
    now apply closes_last_line.
  - cbn [forallb] in Hlines. apply andb_true_iff in Hlines as [Hl2 Hrest].
    apply andb_true_iff in Hl2 as [Hcr Hne].
    apply negb_true_iff in Hcr, Hne.
    rewrite response_cons, !BufFacts.of_string_app.
    specialize (IH l2 Hcr Hrest).
    destruct l2 as [|c l2]; [discriminate|].
    assert (Hhead : exists B, Buf.of_string (response (String c l2) rest)
                              = byte_of_ascii c :: B).
    { unfold response. destruct rest; cbn [Text.join]; rewrite !app_cons; eauto. }
    destruct Hhead as [B HB]. rewrite HB in *.
    apply (closes_next_line first (byte_of_ascii c) B Hfirst); [|exact IH].
    cbn [Text.has] in Hcr. apply orb_false_iff in Hcr as [Hc _].
    now apply BufFacts.byte_not_cr.
Qed.

Lemma validHeader_line (l : string) :
  validHeader l = true ->
  negb (Text.has Text.CR l) && negb (String.eqb l "") = true.
Proof.
  unfold validHeader. intros H. apply andb_true_iff in H as [Hp Hcolon].
  destruct (plain_parts _ Hp) as (_ & Hcr & _). rewrite Hcr.
  destruct l; [discriminate|reflexivity].
Qed.

(** A valid response with nothing after it, cut into chunks that are not
    empty, resolves as it does in one chunk: chunk boundaries do not show
    in the result. *)
Theorem valid_response_any_chunking (version code : string)
    (reason headerLines : list string) (chunks : list Buf.Buffer) :
  validStatus version code reason = true ->
  forallb validHeader headerLines = true ->
  chunks <> [] ->
  Forall (λ b, b <> []) chunks ->
  List.concat chunks
  = Buf.of_string (response (statusLine version code reason) headerLines) ->
  promise (deliver chunks)
  = promise (deliver [Buf.of_string
                        (response (statusLine version code reason) headerLines)]).
Proof.
  intros Hstatus Hlines Hne Hall Hcat. rewrite <- Hcat.
  apply ReaderFacts.chunking_without_trailing_bytes; [exact Hne|exact Hall|].
  rewrite Hcat. apply response_closes.
  - now apply plain_parts, statusLine_plain.
  - apply (forallb_impl validHeader); [|exact Hlines]. apply validHeader_line.
Qed.

End WireFacts.

(* ===================================================================== *)
(** ** Properties of the reader *)
(* ===================================================================== *)

Module Properties.

Import Reader Run Wire ReaderFacts.

(** No run resolves with bytes that do not decode: what the promise
    resolves with is what [decode] made of the returned bytes. *)
Lemma resolved_decodes (chunks : list Buf.Buffer) (events : list Event)
    (connect : ConnectResponse) (buffered : Buf.Buffer) :
  promise (run chunks events) = Some (Resolved connect buffered) ->
  decode buffered = inr connect.
Proof.
  intros H. destruct (run_spec chunks events) as [[_ _ _ _ Hres] _].
  now apply (Hres connect buffered).
Qed.

(** C1 (the code departs from it).  The sample exchange, header block and
    tunnel bytes in one chunk, does not resolve: the text after the blank
    line is taken for a header line without a colon, the socket is
    destroyed and the promise rejected.  Delivered with the tunnel bytes in
    a chunk of their own it resolves as the claim says, but the returned
    bytes stop at the blank line.  No delivery resolves with the whole
    sample as the returned bytes. *)
Theorem sample_with_tunnel_bytes :
  promise (deliver [Buf.of_string sample])
  = Some (Rejected (MalformedHeaderLine sampleTunnel)) /\
  destroyed (socket (deliver [Buf.of_string sample])) = true /\
  promise (deliver [Buf.of_string sampleHead; Buf.of_string sampleTunnel])
  = Some (Resolved (mkConnect (Num.Int 200) "Connection established"
                              {[ "proxy-agent" := Headers.Str "test" ]})
                   (Buf.of_string sampleHead)) /\
  (forall chunks events connect,
      promise (run chunks events)
      <> Some (Resolved connect (Buf.of_string sample))).
Proof.
  split; [vm_compute; reflexivity|].
  split; [vm_compute; reflexivity|].
  split; [vm_compute; reflexivity|].
  intros chunks events connect H.
  apply resolved_decodes in H.
  assert (Hd : decode (Buf.of_string sample) = inl (MalformedHeaderLine sampleTunnel))
    by (vm_compute; reflexivity).
  congruence.
Qed.

(** C2 (the code departs from it).  The same bytes, a header block
    followed by [x: y], give two different responses: in one chunk the
    trailing text becomes a header, in two chunks it does not.  With
    trailing text that has no colon the one-chunk delivery is rejected
    and the two-chunk delivery resolves. *)
Theorem chunking_changes_the_response :
  promise (deliver [Buf.of_string bare ++ Buf.of_string "x: y"])
  = Some (Resolved (mkConnect (Num.Int 200) "OK" {[ "x" := Headers.Str "y" ]})
                   (Buf.of_string bare ++ Buf.of_string "x: y")) /\
  promise (deliver [Buf.of_string bare; Buf.of_string "x: y"])
  = Some (Resolved (mkConnect (Num.Int 200) "OK" ∅) (Buf.of_string bare)) /\
  promise (deliver [Buf.of_string bare ++ Buf.of_string "foo"])
  = Some (Rejected (MalformedHeaderLine "foo")) /\
  promise (deliver [Buf.of_string bare; Buf.of_string "foo"])
  = Some (Resolved (mkConnect (Num.Int 200) "OK" ∅) (Buf.of_string bare)).
Proof. repeat split; vm_compute; reflexivity. Qed.

(** C3 (the code departs from it).  Line 66 splits the whole buffer, so
    the lines after the blank line reach the loop: text without a colon
    there is reported as an invalid header, and text with a colon is
    stored as a header. *)
Theorem bytes_after_terminator_are_header_lines :
  Text.split (Buf.toString_ascii (Buf.of_string (bare +:+ "foo"))) Text.CRLF
  = ["HTTP/1.1 200 OK"; ""; "foo"] /\
  decode (Buf.of_string (bare +:+ "foo")) = inl (MalformedHeaderLine "foo") /\
  decode (Buf.of_string (bare +:+ "x: y"))
  = inr (mkConnect (Num.Int 200) "OK" {[ "x" := Headers.Str "y" ]}) /\
  destroyed (socket (deliver [Buf.of_string (bare +:+ "foo")])) = true.
Proof. repeat split; vm_compute; reflexivity. Qed.

(** C4.  When the promise resolves, the returned bytes are the chunks the
    reader took from the socket, one after the other; and these chunks,
    followed by the ones still in the socket, are all the chunks the
    stream delivered, in order. *)
Theorem buffered_is_all_that_was_read (chunks : list Buf.Buffer)
    (events : list Event) (connect : ConnectResponse) (buffered : Buf.Buffer) :
  promise (run chunks events) = Some (Resolved connect buffered) ->
  buffered = List.concat (buffers (run chunks events)) /\
  buffers (run chunks events) ++ readable (socket (run chunks events))
  = chunks ++ delivered events.
Proof.
  intros H. destruct (run_spec chunks events) as [[_ _ _ _ Hres] Ht].
  split; [now apply (Hres connect buffered)|exact Ht].
Qed.

Lemma buffered_is_all_that_was_read_witness :
  Buf.of_string sampleHead
  = List.concat (buffers (run [Buf.of_string "HTTP/1.1 200 Conn"]
       [Readable [Buf.of_string "ection established"];
        Readable [Buf.of_string (Text.CRLF +:+ "Proxy-agent: test" +:+ Text.CRLF +:+ Text.CRLF);
                  Buf.of_string sampleTunnel]])) /\
  buffers (run [Buf.of_string "HTTP/1.1 200 Conn"]
       [Readable [Buf.of_string "ection established"];
        Readable [Buf.of_string (Text.CRLF +:+ "Proxy-agent: test" +:+ Text.CRLF +:+ Text.CRLF);
                  Buf.of_string sampleTunnel]])
  ++ readable (socket (run [Buf.of_string "HTTP/1.1 200 Conn"]
       [Readable [Buf.of_string "ection established"];
        Readable [Buf.of_string (Text.CRLF +:+ "Proxy-agent: test" +:+ Text.CRLF +:+ Text.CRLF);
                  Buf.of_string sampleTunnel]]))
  = [Buf.of_string "HTTP/1.1 200 Conn"]
    ++ delivered
       [Readable [Buf.of_string "ection established"];
        Readable [Buf.of_string (Text.CRLF +:+ "Proxy-agent: test" +:+ Text.CRLF +:+ Text.CRLF);
                  Buf.of_string sampleTunnel]].
Proof.
  apply (buffered_is_all_that_was_read _ _
           (mkConnect (Num.Int 200) "Connection established"
                      {[ "proxy-agent" := Headers.Str "test" ]})).
  vm_compute. reflexivity.
Defined.

(** C5 (the code departs from it).  On the two rejections of lines 68 to
    73 and 81 to 88 [cleanup] is not called: the ['end'] and ['error']
    listeners stay attached, and an end of stream that arrives afterwards
    still runs [onend], which only then detaches them.  The settled
    promise keeps its value. *)
Theorem listeners_stay_after_invalid_structure :
  promise (deliver [Buf.of_string blank]) = Some (Rejected MissingStatusLine) /\
  onEndListener (socket (deliver [Buf.of_string blank])) = true /\
  onErrorListener (socket (deliver [Buf.of_string blank])) = true /\
  onEndListener (socket (emit (deliver [Buf.of_string blank]) Ended)) = false /\
  promise (emit (deliver [Buf.of_string blank]) Ended)
  = Some (Rejected MissingStatusLine) /\
  promise (deliver [Buf.of_string colonless])
  = Some (Rejected (MalformedHeaderLine "foo")) /\
  onEndListener (socket (deliver [Buf.of_string colonless])) = true /\
  onErrorListener (socket (deliver [Buf.of_string colonless])) = true /\
  onErrorListener (socket (emit (deliver [Buf.of_string colonless]) (Errored "reset")))
  = false.
Proof. repeat split; vm_compute; reflexivity. Qed.

(** C6 (the code departs from it).  A valid response whose header is named
    [__proto__] resolves with no header at all: on the object literal of
    line 77 that name is the inherited accessor, line 91 reads the
    prototype object through it, and the assignment of line 97 stores
    nothing. *)
Theorem proto_header_is_not_stored :
  promise (deliver [Buf.of_string protoOnce])
  = Some (Resolved (mkConnect (Num.Int 200) "OK" ∅) (Buf.of_string protoOnce)) /\
  valuesFor "__proto__" ["__proto__: x"] = ["x"].
Proof. split; vm_compute; reflexivity. Qed.

(** C7 (the code departs from it).  A header sent twice under one name
    ends up as the array of its two values in order, and sent three times
    as the array of the three; sent under the name [__proto__] it ends up
    nowhere, for two values as for one. *)
Theorem repeated_proto_header_is_not_stored :
  promise (deliver [Buf.of_string twice])
  = Some (Resolved (mkConnect (Num.Int 200) "OK"
                              {[ "via" := Headers.Arr ["a"; "b"] ]})
                   (Buf.of_string twice)) /\
  promise (deliver [Buf.of_string thrice])
  = Some (Resolved (mkConnect (Num.Int 200) "OK"
                              {[ "via" := Headers.Arr ["a"; "b"; "c"] ]})
                   (Buf.of_string thrice)) /\
  promise (deliver [Buf.of_string protoTwice])
  = Some (Resolved (mkConnect (Num.Int 200) "OK" ∅) (Buf.of_string protoTwice)) /\
  valuesFor "__proto__" ["__proto__: a"; "__proto__: b"] = ["a"; "b"].
Proof. repeat split; vm_compute; reflexivity. Qed.

(** C8.  The socket is destroyed exactly when the promise was rejected for
    a missing status line or for a header line without a colon; it is not
    destroyed when the stream ended, when the stream failed, or when the
    promise resolved.  The terminator alone is rejected for the missing
    status line, and the socket destroyed; so it is after a header line
    without a colon; it is not after an end of stream, a failure of the
    stream or the sample header block. *)
Theorem destroyed_iff_invalid_structure :
  (forall chunks events,
      destroyed (socket (run chunks events)) = true <->
      (promise (run chunks events) = Some (Rejected MissingStatusLine) \/
       exists header,
         promise (run chunks events) = Some (Rejected (MalformedHeaderLine header)))) /\
  (forall chunks events,
      promise (run chunks events) = Some (Rejected PrematureEnd) ->
      destroyed (socket (run chunks events)) = false) /\
  (forall chunks events err,
      promise (run chunks events) = Some (Rejected (StreamError err)) ->
      destroyed (socket (run chunks events)) = false) /\
  (forall chunks events connect buffered,
      promise (run chunks events) = Some (Resolved connect buffered) ->
      destroyed (socket (run chunks events)) = false) /\
  promise (deliver [Buf.of_string blank]) = Some (Rejected MissingStatusLine) /\
  destroyed (socket (deliver [Buf.of_string blank])) = true /\
  destroyed (socket (deliver [Buf.of_string colonless])) = true /\
  destroyed (socket (run [] [Ended])) = false /\
  destroyed (socket (run [] [Errored "reset"])) = false /\
  destroyed (socket (deliver [Buf.of_string sampleHead])) = false.
Proof.
  assert (Hiff : forall chunks events,
      destroyed (socket (run chunks events)) = true <->
      (promise (run chunks events) = Some (Rejected MissingStatusLine) \/
       exists header,
         promise (run chunks events) = Some (Rejected (MalformedHeaderLine header)))).
  { intros chunks events.
    destruct (run_spec chunks events) as [[_ _ _ Hdes _] _]. exact Hdes. }
  split; [exact Hiff|].
  split; [|split; [|split; [|repeat split; vm_compute; reflexivity]]].
  - intros chunks events H.
    destruct (destroyed (socket (run chunks events))) eqn:Hd; [|reflexivity].
    apply Hiff in Hd as [Hd|[header Hd]]; rewrite H in Hd; discriminate.
  - intros chunks events err H.
    destruct (destroyed (socket (run chunks events))) eqn:Hd; [|reflexivity].
    apply Hiff in Hd as [Hd|[header Hd]]; rewrite H in Hd; discriminate.
  - intros chunks events connect buffered H.
    destruct (destroyed (socket (run chunks events))) eqn:Hd; [|reflexivity].
    apply Hiff in Hd as [Hd|[header Hd]]; rewrite H in Hd; discriminate.
Qed.

(** The state of a run that has seen data only, none of it completing a
    header block: nothing is settled. *)
Lemma still_pending (chunks : list Buf.Buffer) (ds : list (list Buf.Buffer)) :
  Buf.indexOf (List.concat (chunks ++ List.concat ds)) terminator = -1 ->
  promise (run chunks (Readable <$> ds)) = None.
Proof.
  intros Hno. rewrite run_readables.
  now rewrite (firstComplete_none [] _ Hno).
Qed.

(** C9.  When the bytes the stream delivered hold no terminator (none
    delivered included), the end of the stream rejects the promise with the
    fixed message, and a failure of the stream rejects it with the error of
    the stream, as it is. *)
Theorem end_or_failure_before_terminator (chunks : list Buf.Buffer)
    (ds : list (list Buf.Buffer)) (err : string) :
  Buf.indexOf (List.concat (chunks ++ List.concat ds)) terminator = -1 ->
  promise (run chunks ((Readable <$> ds) ++ [Ended]))
  = Some (Rejected
            (NewError "Proxy connection ended before receiving CONNECT response")) /\
  promise (run chunks ((Readable <$> ds) ++ [Errored err]))
  = Some (Rejected (StreamError err)).
Proof.
  intros Hno. pose proof (still_pending chunks ds Hno) as Hp.
  destruct (run_spec chunks (Readable <$> ds)) as [[_ Hpend _ _ _] _].
  destruct (Hpend Hp) as (_ & Hend & Herr & _).
  rewrite !run_snoc. cbn [emit]. rewrite Hend, Herr.
  unfold onend, onerror, reject, settle, cleanup. fields.
  now rewrite Hp.
Qed.

(** Nothing received at all, then the end of the stream. *)
Example end_with_no_byte :
  promise (run [] [Ended]) = Some (Rejected PrematureEnd) /\
  promise (run [] [Readable []; Ended]) = Some (Rejected PrematureEnd).
Proof. split; reflexivity. Qed.

Lemma end_or_failure_before_terminator_witness :
  promise (run [] ((Readable <$> [[Buf.of_string "HTTP/1.1 200"]]) ++ [Ended]))
  = Some (Rejected
            (NewError "Proxy connection ended before receiving CONNECT response")) /\
  promise (run [] ((Readable <$> [[Buf.of_string "HTTP/1.1 200"]]) ++ [Errored "reset"]))
  = Some (Rejected (StreamError "reset")).
Proof.
  apply (end_or_failure_before_terminator [] [[Buf.of_string "HTTP/1.1 200"]] "reset").
  vm_compute. reflexivity.
Defined.

(** C10 (as written it fails).  The second word of [HTTP/1.1  OK], with
    its two spaces, is the empty text: it is no numeric literal, and the
    promise resolves with the status code 0, which is not NaN. *)
Theorem blank_second_word_is_not_nan :
  Text.split "HTTP/1.1  OK" " " !! 1%nat = Some "" /\
  ~ Grammar.Numeric "" /\
  promise (deliver [Buf.of_string ("HTTP/1.1  OK" +:+ blank)])
  = Some (Resolved (mkConnect (Num.Int 0) "OK" ∅)
                   (Buf.of_string ("HTTP/1.1  OK" +:+ blank))) /\
  Num.Int 0 <> Num.NaN.
Proof.
  split; [reflexivity|]. split.
  - intros H. apply GrammarFacts.literal_iff in H as [H _]. now apply H.
  - split; [vm_compute; reflexivity|discriminate].
Qed.

(** C10 (amended).  Take the bytes accumulated when a chunk first
    completes a header block, with a first line that is not empty, made of
    words with one space between them.  The second word does not make the
    promise reject: the promise settles as the header lines alone decide,
    rejected only for a line without a colon and otherwise resolved, with
    the status text made of the words after the second, joined by single
    spaces, and with the status code NaN when the second word is missing
    or is, once trimmed, neither empty nor a numeric literal, but 0 when
    it is empty or white space only.  When every line after the first is
    empty or has a colon, the promise does resolve. *)
Theorem status_code_by_second_word (chunks : list Buf.Buffer)
    (ds : list (list Buf.Buffer)) (buffered : Buf.Buffer)
    (tokens headerParts : list string) (code : Num.number) :
  firstComplete [] (chunks ++ List.concat ds) = Some buffered ->
  Text.split (Buf.toString_ascii buffered) Text.CRLF
  = Text.join tokens " " :: headerParts ->
  Text.join tokens " " <> "" ->
  Forall (λ token, Text.has " " token = false) tokens ->
  Grammar.Coerced (tokens !! 1%nat) code ->
  promise (run chunks (Readable <$> ds))
  = Some match headerLoop ∅ headerParts with
         | inl header => Rejected (MalformedHeaderLine header)
         | inr headers =>
             Resolved (mkConnect code (Text.join (drop 2 tokens) " ") headers)
                      buffered
         end /\
  (forallb wellFormed headerParts = true ->
   exists headers,
     promise (run chunks (Readable <$> ds))
     = Some (Resolved (mkConnect code (Text.join (drop 2 tokens) " ") headers)
                      buffered)).
Proof.
  intros Hfirst Hsplit Hne Hwords Hcode.
  assert (Htokens : Text.split (Text.join tokens " ") " " = tokens).
  { apply (SplitFacts.split_join " " ""); [|exact Hwords].
    intros E. subst tokens. now apply Hne. }
  assert (Hrun : promise (run chunks (Readable <$> ds))
                 = Some match headerLoop ∅ headerParts with
                        | inl header => Rejected (MalformedHeaderLine header)
                        | inr headers =>
                            Resolved (mkConnect code
                                        (Text.join (drop 2 tokens) " ") headers)
                                     buffered
                        end).
  { rewrite run_readables, Hfirst. cbn [fmap option_fmap option_map].
    f_equal. unfold settleAt, decode. rewrite Hsplit.
    destruct (Text.join tokens " ") as [|c firstLine] eqn:Hline;
      [contradiction|].
    rewrite Htokens, (GrammarFacts.coerce_cases _ _ Hcode).
    now destruct (headerLoop ∅ headerParts). }
  split; [exact Hrun|].
  intros Hwf.
  destruct (HeaderFacts.headerLoop_lookup headerParts ∅ Hwf) as (headers & Hloop & _).
  exists headers. now rewrite Hrun, Hloop.
Qed.

Lemma status_code_by_second_word_witness :
  promise (run [] (Readable <$> [[Buf.of_string "HTTP/1.1 abc"];
                                 [Buf.of_string (" Nope" +:+ Text.CRLF +:+ "a:b" +:+ blank)]]))
  = Some (Resolved (mkConnect Num.NaN "Nope" {[ "a" := Headers.Str "b" ]})
                   (Buf.of_string wordy)).
Proof.
  refine (eq_trans
            (proj1 (status_code_by_second_word []
                      [[Buf.of_string "HTTP/1.1 abc"];
                       [Buf.of_string (" Nope" +:+ Text.CRLF +:+ "a:b" +:+ blank)]]
                      (Buf.of_string wordy) ["HTTP/1.1"; "abc"; "Nope"]
                      ["a:b"; ""; ""] Num.NaN _ _ _ _ _)) _).
  - vm_compute. reflexivity.
  - vm_compute. reflexivity.
  - discriminate.
  - repeat constructor.
  - apply Grammar.coerced_other.
    + discriminate.
    + intros H.
      pose proof (proj2 (GrammarFacts.isNumeric_iff "abc") (or_intror H)) as Hnum.
      discriminate Hnum.
  - vm_compute. reflexivity.
Defined.

(** A second word made of a tab alone coerces to 0 as the empty one
    does. *)
Example tab_status_code_is_zero :
  promise (deliver [Buf.of_string ("HTTP/1.1 " +:+ String "009" (" OK" +:+ blank))])
  = Some (Resolved (mkConnect (Num.Int 0) "OK" ∅)
                   (Buf.of_string ("HTTP/1.1 " +:+ String "009" (" OK" +:+ blank)))).
Proof. vm_compute. reflexivity. Qed.

(** The same with no second word at all, and with the result spelled
    out. *)
Example status_code_examples :
  promise (deliver [Buf.of_string wordy])
  = Some (Resolved (mkConnect Num.NaN "Nope" {[ "a" := Headers.Str "b" ]})
                   (Buf.of_string wordy)) /\
  promise (deliver [Buf.of_string ("HTTP/1.1" +:+ blank)])
  = Some (Resolved (mkConnect Num.NaN "" ∅) (Buf.of_string ("HTTP/1.1" +:+ blank))) /\
  promise (deliver [Buf.of_string ("HTTP/1.1 2OO OK" +:+ blank)])
  = Some (Resolved (mkConnect Num.NaN "OK" ∅)
                   (Buf.of_string ("HTTP/1.1 2OO OK" +:+ blank))).
Proof. repeat split; vm_compute; reflexivity. Qed.

(** The sample header block is a valid response in the sense of [Wire],
    and it closes: the theorems on valid responses apply to it. *)
Example sample_is_valid :
  validStatus "HTTP/1.1" "200" ["Connection"; "established"] = true /\
  forallb validHeader ["Proxy-agent: test"] = true /\
  response (statusLine "HTTP/1.1" "200" ["Connection"; "established"])
           ["Proxy-agent: test"] = sampleHead /\
  promise (deliver [Buf.of_string "HTTP/1.1 200 Connection est";
                    Buf.of_string ("ablished" +:+ Text.CRLF +:+ "Proxy-agent: test");
                    Buf.of_string (Text.CRLF +:+ Text.CRLF)])
  = promise (deliver [Buf.of_string sampleHead]).
Proof.
  split; [reflexivity|]. split; [reflexivity|]. split; [reflexivity|].
  apply (WireFacts.valid_response_any_chunking
           "HTTP/1.1" "200" ["Connection"; "established"] ["Proxy-agent: test"]
           [Buf.of_string "HTTP/1.1 200 Connection est";
            Buf.of_string ("ablished" +:+ Text.CRLF +:+ "Proxy-agent: test");
            Buf.of_string (Text.CRLF +:+ Text.CRLF)]);
    try reflexivity; try discriminate.
  repeat constructor; discriminate.
Qed.

End Properties.

(* ===================================================================== *)
(** ** More on the runs of the reader *)
(* ===================================================================== *)

Module RunFacts.

Import Reader Run ReaderFacts.

(** The bytes [firstComplete] returns hold a terminator. *)
Lemma firstComplete_complete (chunks : list Buf.Buffer) (acc b : Buf.Buffer) :
  firstComplete acc chunks = Some b -> Buf.indexOf b terminator <> -1.
Proof.
  revert acc. induction chunks as [|c rest IH]; intros acc H; [discriminate|].
  cbn [firstComplete] in H.
  destruct (Z.eqb_spec (Buf.indexOf (acc ++ c) terminator) (-1)) as [|Hn].
  - now apply (IH (acc ++ c)).
  - now injection H as <-.
Qed.

(** Some chunk completes a header block when the delivery holds a
    terminator and the bytes before it do not. *)
Lemma firstComplete_some (chunks : list Buf.Buffer) (acc : Buf.Buffer) :
  Buf.indexOf acc terminator = -1 ->
  Buf.indexOf (acc ++ List.concat chunks) terminator <> -1 ->
  exists b, firstComplete acc chunks = Some b.
Proof.
  revert acc. induction chunks as [|c rest IH]; intros acc Hacc Hyes.
  - cbn [List.concat] in Hyes. rewrite List.app_nil_r in Hyes. contradiction.
  - cbn [firstComplete List.concat] in *.
    destruct (Z.eqb_spec (Buf.indexOf (acc ++ c) terminator) (-1)) as [Hn|Hn];
      [|eauto].
    apply IH; [exact Hn|]. now rewrite <- List.app_assoc.
Qed.

(** An event on a settled reader: nothing is read, the chunks of the event
    stay in the socket, and neither the promise nor [destroyed] changes. *)
Lemma emit_settled (st : State) (ev : Event) (v : Settled) :
  Consistent st ->
  promise st = Some v ->
  promise (emit st ev) = Some v /\
  buffers (emit st ev) = buffers st /\
  buffersLength (emit st ev) = buffersLength st /\
  readable (socket (emit st ev)) = readable (socket st) ++ chunksOf ev /\
  destroyed (socket (emit st ev)) = destroyed (socket st).
Proof.
  intros Hc Hv. destruct Hc as [_ _ Hset _ _ _].
  destruct st as [n bs [rd e1 e2 e3 d] p]; fields. subst p.
  assert (e3 = false) as -> by (now apply Hset).
  destruct ev as [chunks| |err]; cbn [emit chunksOf]; fields.
  - repeat split.
  - destruct e2; unfold onend, reject, settle, cleanup; fields;
      rewrite List.app_nil_r; repeat split.
  - destruct e1; unfold onerror, reject, settle, cleanup; fields;
      rewrite List.app_nil_r; repeat split.
Qed.

Lemma delivered_app (l1 l2 : list Event) :
  delivered (l1 ++ l2) = delivered l1 ++ delivered l2.
Proof. unfold delivered. now rewrite fmap_app, concat_app. Qed.

Lemma run_app (chunks : list Buf.Buffer) (events more : list Event) :
  run chunks (events ++ more) = fold_left emit more (run chunks events).
Proof. unfold run. now rewrite fold_left_app. Qed.

(** The same over any further events. *)
Lemma after_settled (chunks : list Buf.Buffer) (events more : list Event)
    (v : Settled) :
  promise (run chunks events) = Some v ->
  promise (run chunks (events ++ more)) = Some v /\
  buffers (run chunks (events ++ more)) = buffers (run chunks events) /\
  readable (socket (run chunks (events ++ more)))
  = readable (socket (run chunks events)) ++ delivered more /\
  destroyed (socket (run chunks (events ++ more)))
  = destroyed (socket (run chunks events)).
Proof.
  intros Hv. induction more as [|ev more IH] using rev_ind.
  - rewrite List.app_nil_r. unfold delivered. cbn. rewrite List.app_nil_r.
    repeat split. exact Hv.
  - destruct IH as (IHp & IHb & IHr & IHd).
    rewrite List.app_assoc, run_snoc, delivered_snoc.
    destruct (run_spec chunks (events ++ more)) as [Hc _].
    destruct (emit_settled _ ev v Hc IHp) as (Hp & Hb & _ & Hr & Hd).
    rewrite Hp, Hb, Hr, Hd, IHb, IHr, IHd.
    repeat split. now rewrite List.app_assoc.
Qed.

(** A ['readable'] event that brings nothing changes nothing. *)
Lemma emit_nothing (st : State) :
  Consistent st -> emit st (Readable []) = st.
Proof.
  intros [_ Hpend Hset _ _ _].
  destruct st as [n bs [rd e1 e2 e3 d] [v|]]; fields.
  - assert (e3 = false) as -> by (now apply Hset).
    cbn [emit]. fields. now rewrite List.app_nil_r.
  - destruct (Hpend eq_refl) as (-> & -> & -> & -> & -> & _).
    reflexivity.
Qed.

(** What a pending run looks like. *)
Lemma pending_state (chunks : list Buf.Buffer) (events : list Event) :
  promise (run chunks events) = None ->
  buffers (run chunks events) = chunks ++ delivered events /\
  readable (socket (run chunks events)) = [] /\
  readListener (socket (run chunks events)) = true /\
  onEndListener (socket (run chunks events)) = true /\
  onErrorListener (socket (run chunks events)) = true /\
  Buf.indexOf (List.concat (buffers (run chunks events))) terminator = -1.
Proof.
  intros Hp. destruct (run_spec chunks events) as [[_ Hpend _ _ _ _] Ht].
  destruct (Hpend Hp) as (Hr & He & Herr & Hrd & _ & Hopen).
  unfold total in Ht. rewrite Hrd, List.app_nil_r in Ht. auto 10.
Qed.

(** Where a rejection for the end of the stream comes from: an ['end']
    event, on a reader that had read no terminator. *)
Lemma premature_end_cause (chunks : list Buf.Buffer) (events : list Event) :
  promise (run chunks events) = Some (Rejected PrematureEnd) ->
  In Ended events /\
  Buf.indexOf (List.concat (buffers (run chunks events))) terminator = -1.
Proof.
  induction events as [|ev events IH] using rev_ind; intros H.
  - unfold run in H. cbn [fold_left] in H.
    destruct (parse_spec chunks) as (_ & _ & Hp). rewrite Hp in H.
    destruct (firstComplete [] chunks) as [b|]; [|discriminate].
    cbn in H. unfold settleAt in H.
    destruct (decode b) as [err|c] eqn:Hd; [|discriminate].
    apply decode_error in Hd as [->|[h ->]]; discriminate.
  - rewrite run_snoc in *.
    destruct (run_spec chunks events) as [Hc _].
    destruct (promise (run chunks events)) as [v|] eqn:Hp.
    + destruct (emit_settled _ ev v Hc Hp) as (Hp' & Hb & _).
      rewrite Hp' in H. injection H as ->.
      destruct (IH eq_refl) as [Hin Hopen].
      rewrite Hb. split; [apply in_or_app; now left|exact Hopen].
    + destruct (pending_state _ _ Hp) as (_ & _ & _ & He & _ & Hopen).
      destruct ev as [cs| |err].
      * rewrite (emit_readable_pending _ _ Hc Hp) in H.
        destruct (firstComplete _ cs) as [b|]; [|discriminate].
        cbn in H. unfold settleAt in H.
        destruct (decode b) as [e|c] eqn:Hd; [|discriminate].
        apply decode_error in Hd as [->|[h ->]]; discriminate.
      * split; [apply in_or_app; right; now left|].
        cbn [emit]. rewrite He.
        unfold onend, reject, settle, cleanup. fields.
        now destruct (promise (run chunks events)).
      * cbn [emit] in H.
        destruct (pending_state _ _ Hp) as (_ & _ & _ & _ & Herr & _).
        rewrite Herr in H.
        unfold onerror, reject, settle, cleanup in H. fields.
        rewrite Hp in H. discriminate.
Qed.

(** Where a rejection with an error of the stream comes from: an
    ['error'] event carrying it, on a reader that had read no
    terminator. *)
Lemma stream_error_cause (chunks : list Buf.Buffer) (events : list Event)
    (err : string) :
  promise (run chunks events) = Some (Rejected (StreamError err)) ->
  In (Errored err) events /\
  Buf.indexOf (List.concat (buffers (run chunks events))) terminator = -1.
Proof.
  induction events as [|ev events IH] using rev_ind; intros H.
  - unfold run in H. cbn [fold_left] in H.
    destruct (parse_spec chunks) as (_ & _ & Hp). rewrite Hp in H.
    destruct (firstComplete [] chunks) as [b|]; [|discriminate].
    cbn in H. unfold settleAt in H.
    destruct (decode b) as [e|c] eqn:Hd; [|discriminate].
    apply decode_error in Hd as [->|[h ->]]; discriminate.
  - rewrite run_snoc in *.
    destruct (run_spec chunks events) as [Hc _].
    destruct (promise (run chunks events)) as [v|] eqn:Hp.
    + destruct (emit_settled _ ev v Hc Hp) as (Hp' & Hb & _).
      rewrite Hp' in H. injection H as ->.
      destruct (IH eq_refl) as [Hin Hopen].
      rewrite Hb. split; [apply in_or_app; now left|exact Hopen].
    + destruct (pending_state _ _ Hp) as (_ & _ & _ & He & Herr & Hopen).
      destruct ev as [cs| |err'].
      * rewrite (emit_readable_pending _ _ Hc Hp) in H.
        destruct (firstComplete _ cs) as [b|]; [|discriminate].
        cbn in H. unfold settleAt in H.
        destruct (decode b) as [e|c] eqn:Hd; [|discriminate].
        apply decode_error in Hd as [->|[h ->]]; discriminate.
      * cbn [emit] in H. rewrite He in H.
        unfold onend, reject, settle, cleanup in H. fields.
        rewrite Hp in H. discriminate.
      * cbn [emit] in *. rewrite Herr in *.
        unfold onerror, reject, settle, cleanup in *. fields.
        rewrite Hp in *. injection H as ->.
        split; [apply in_or_app; right; now left|exact Hopen].
Qed.

(** Where a settled promise comes from: bytes that hold a terminator,
    decoded; or an ['end'] event; or an ['error'] event. *)
Lemma settled_origin (chunks : list Buf.Buffer) (events : list Event)
    (v : Settled) :
  promise (run chunks events) = Some v ->
  (exists b, Buf.indexOf b terminator <> -1 /\ v = settleAt b) \/
  (v = Rejected PrematureEnd /\ In Ended events) \/
  (exists err, v = Rejected (StreamError err) /\ In (Errored err) events).
Proof.
  revert v. induction events as [|ev events IH] using rev_ind; intros v H.
  - unfold run in H. cbn [fold_left] in H.
    destruct (parse_spec chunks) as (_ & _ & Hp). rewrite Hp in H.
    destruct (firstComplete [] chunks) as [b|] eqn:Hb; [|discriminate].
    injection H as <-. left. exists b. split; [|reflexivity].
    exact (firstComplete_complete _ _ _ Hb).
  - rewrite run_snoc in H.
    destruct (run_spec chunks events) as [Hc _].
    destruct (promise (run chunks events)) as [v0|] eqn:Hp.
    + destruct (emit_settled _ ev v0 Hc Hp) as (Hp' & _).
      rewrite Hp' in H. injection H as <-.
      destruct (IH v0 eq_refl) as [Hb|[[Hv Hin]|(err & Hv & Hin)]].
      * now left.
      * right. left. split; [exact Hv|apply in_or_app; now left].
      * right. right. exists err. split; [exact Hv|apply in_or_app; now left].
    + destruct (pending_state _ _ Hp) as (_ & _ & _ & He & Herr & _).
      destruct ev as [cs| |err].
      * rewrite (emit_readable_pending _ _ Hc Hp) in H.
        destruct (firstComplete _ cs) as [b|] eqn:Hb; [|discriminate].
        injection H as <-. left. exists b. split; [|reflexivity].
        exact (firstComplete_complete _ _ _ Hb).
      * cbn [emit] in H. rewrite He in H.
        unfold onend, reject, settle, cleanup in H. fields.
        rewrite Hp in H. injection H as <-.
        right. left. split; [reflexivity|apply in_or_app; right; now left].
      * cbn [emit] in H. rewrite Herr in H.
        unfold onerror, reject, settle, cleanup in H. fields.
        rewrite Hp in H. injection H as <-.
        right. right. exists err.
        split; [reflexivity|apply in_or_app; right; now left].
Qed.

(** An event on a pending reader that is not a ['readable'] settles the
    promise. *)
Lemma emit_closing (st : State) (ev : Event) :
  Consistent st -> chunksOf ev = [] -> ev <> Readable [] ->
  exists v, promise (emit st ev) = Some v.
Proof.
  intros Hc Hev Hne.
  destruct (promise st) as [v|] eqn:Hp.
  - exists v. now apply (emit_settled st ev v Hc Hp).
  - destruct Hc as [_ Hpend _ _ _ _].
    destruct (Hpend Hp) as (_ & He & Herr & _).
    destruct ev as [cs| |err].
    + cbn in Hev. subst cs. contradiction.
    + cbn [emit]. rewrite He. unfold onend, reject, settle, cleanup. fields.
      rewrite Hp. eauto.
    + cbn [emit]. rewrite Herr. unfold onerror, reject, settle, cleanup. fields.
      rewrite Hp. eauto.
Qed.

End RunFacts.

(* ===================================================================== *)
(** ** More on decoding *)
(* ===================================================================== *)

Module DecodeFacts.

Import Reader Run Wire Shape TextFacts.

(** The loop returns at the first line that is not empty and has no colon,
    whatever comes after it. *)
Lemma headerLoop_first_bad (good : list string) (bad : string)
    (rest : list string) (hs : Headers.t) :
  forallb wellFormed good = true ->
  bad <> "" ->
  Text.has ":" bad = false ->
  headerLoop hs (good ++ bad :: rest) = inl bad.
Proof.
  intros Hgood Hne Hcolon. revert hs.
  induction good as [|header good IH]; intros hs.
  - apply HeaderFacts.headerLoop_bad; [exact Hne|].
    now apply indexOf_absent.
  - cbn [forallb] in Hgood. apply andb_true_iff in Hgood as [Hh Hgood].
    cbn [app]. destruct (String.eqb_spec header "") as [->|Hhne].
    + rewrite HeaderFacts.headerLoop_empty. now apply IH.
    + unfold wellFormed in Hh.
      destruct (String.eqb_spec header ""); [contradiction|].
      cbn [orb] in Hh. apply negb_true_iff, Z.eqb_neq in Hh.
      rewrite HeaderFacts.headerLoop_colon by assumption. now apply IH.
Qed.

(** The first piece of a split is empty exactly for the empty text and for
    a text that begins with the separator. *)
Lemma split_first_empty (c : ascii) (sep' s : string) :
  (exists rest, Text.split s (String c sep') = "" :: rest) <->
  (s = "" \/ Text.startsWith (String c sep') s = true).
Proof.
  unfold Text.split. destruct s as [|a r].
  - split; [now left|]. intros _. now exists [].
  - change (Text.split_scan (String c sep') 0 (String a r))
      with (if Text.startsWith (String c sep') (String a r)
            then "" :: Text.split_scan (String c sep')
                         (Text.len (String c sep') - 1) r
            else Text.cons_first a (Text.split_scan (String c sep') 0 r)).
    destruct (Text.startsWith (String c sep') (String a r)).
    + split; [now right|]. intros _. eauto.
    + split.
      * intros [rest H].
        destruct (Text.split_scan (String c sep') 0 r); discriminate.
      * intros [H|H]; discriminate.
Qed.

Lemma split_scan_pieces (sep s : string) (skip : nat) :
  Text.split_scan sep skip s <> [].
Proof.
  revert skip. induction s as [|a r IH]; intros skip; [discriminate|].
  cbn [Text.split_scan]. destruct skip; [|apply IH].
  destruct (Text.startsWith sep (String a r)); [discriminate|].
  destruct (Text.split_scan sep 0 r); discriminate.
Qed.

(** The error for a missing status line is returned exactly when the
    decoded text is empty or begins with CR LF. *)
Lemma decode_missing_iff (b : Buf.Buffer) :
  decode b = inl MissingStatusLine <->
  (Buf.toString_ascii b = "" \/
   Text.startsWith Text.CRLF (Buf.toString_ascii b) = true).
Proof.
  rewrite <- (split_first_empty Text.CR (String Text.LF "")).
  change (String Text.CR (String Text.LF "")) with Text.CRLF.
  unfold decode.
  destruct (Text.split (Buf.toString_ascii b) Text.CRLF) as [|first rest] eqn:Hs.
  - exfalso. revert Hs. apply split_scan_pieces.
  - destruct first as [|a first].
    + split; [eauto|reflexivity].
    + split.
      * destruct (headerLoop ∅ rest); discriminate.
      * intros [r H]. discriminate.
Qed.

(** *** The shape of the headers object *)

Lemma lower_idem (c : ascii) : Text.lower (Text.lower c) = Text.lower c.
Proof. destruct c as [[] [] [] [] [] [] [] []]; reflexivity. Qed.

Lemma toLowerCase_idem (s : string) :
  Text.toLowerCase (Text.toLowerCase s) = Text.toLowerCase s.
Proof.
  induction s as [|c s IH]; [reflexivity|].
  cbn [Text.toLowerCase]. now rewrite lower_idem, IH.
Qed.

Lemma trimStart_idem (s : string) :
  Text.trimStart (Text.trimStart s) = Text.trimStart s.
Proof.
  induction s as [|c s IH]; [reflexivity|].
  cbn [Text.trimStart]. destruct (Text.isWhiteSpace c) eqn:Hc; [exact IH|].
  cbn [Text.trimStart]. now rewrite Hc.
Qed.

Lemma shaped_empty : shaped ∅.
Proof. intros key v H. rewrite lookup_empty in H. discriminate. Qed.

Lemma shaped_insert (hs : Headers.t) (k : string) (v : Headers.value) :
  shaped hs -> entryOk k v -> shaped (<[k := v]> hs).
Proof.
  intros Hs Hv key w H. destruct (decide (k = key)) as [<-|Hne].
  - rewrite lookup_insert_eq in H. now injection H as <-.
  - rewrite lookup_insert_ne in H by exact Hne. now apply Hs.
Qed.

Lemma shaped_set (hs : Headers.t) (k : string) (v : Headers.value) :
  shaped hs -> (k <> Headers.protoKey -> entryOk k v) ->
  shaped (Headers.set hs k v).
Proof.
  intros Hs Hv. unfold Headers.set.
  destruct (String.eqb_spec k Headers.protoKey); [exact Hs|].
  apply shaped_insert; auto.
Qed.

(** The update of lines 91 to 98 keeps the shape, given a lower-case key
    and a value without leading white space. *)
Lemma add_shaped (hs : Headers.t) (k v : string) :
  shaped hs ->
  Text.toLowerCase k = k ->
  Text.trimStart v = v ->
  shaped (Headers.add hs k v).
Proof.
  intros Hs Hk Hv. unfold Headers.add, Headers.get.
  destruct (hs !! k) as [[cur|items]|] eqn:Hget.
  - apply shaped_set; [exact Hs|]. intros Hproto.
    destruct (Hs _ _ Hget) as (_ & _ & Hcur & _).
    repeat split; [exact Hk|exact Hproto| |cbn; lia].
    cbn [values] in *. inversion Hcur; subst. now repeat constructor.
  - apply shaped_insert; [exact Hs|].
    destruct (Hs _ _ Hget) as (_ & Hproto & Hitems & Hlen).
    repeat split; [exact Hk|exact Hproto| |].
    + cbn [values] in *. apply Forall_app. split; [exact Hitems|].
      now repeat constructor.
    + rewrite length_app. cbn. lia.
  - apply shaped_set; [exact Hs|]. intros Hproto.
    repeat split; [exact Hk|exact Hproto|now repeat constructor].
Qed.

Lemma headerLoop_shaped (lines : list string) (hs hs' : Headers.t) :
  shaped hs -> headerLoop hs lines = inr hs' -> shaped hs'.
Proof.
  revert hs. induction lines as [|header rest IH]; intros hs Hs H.
  - now injection H as <-.
  - cbn [headerLoop] in H.
    destruct (String.eqb header ""); [now apply (IH hs)|].
    destruct (Text.indexOf header ":" =? -1); [discriminate|].
    apply IH in H; [exact H|].
    apply add_shaped; [exact Hs|apply toLowerCase_idem|apply trimStart_idem].
Qed.

Lemma decode_shaped (b : Buf.Buffer) (connect : ConnectResponse) :
  decode b = inr connect -> shaped (headers connect).
Proof.
  unfold decode.
  destruct (Text.split (Buf.toString_ascii b) Text.CRLF) as [|first rest];
    [discriminate|].
  destruct first as [|a first]; [discriminate|].
  destruct (headerLoop ∅ rest) as [h|hs] eqn:Hloop; [discriminate|].
  intros [= <-]. cbn [headers].
  apply (headerLoop_shaped rest ∅ hs shaped_empty Hloop).
Qed.

(** *** The high bit of the bytes *)



(** *** Status lines made of any words *)

Lemma words_split (ws : list string) :
  ws <> [] -> forallb word ws = true ->
  Text.split (Text.join ws " ") " " = ws.
Proof.
  intros Hne Hw. apply (SplitFacts.split_join " " ""); [exact Hne|].
  apply List.Forall_forall. intros w Hin.
  rewrite forallb_forall in Hw. now apply WireFacts.word_parts, Hw.
Qed.

Lemma words_plain (ws : list string) :
  forallb word ws = true -> plain (Text.join ws " ") = true.
Proof.
  intros Hw. unfold plain.
  rewrite all_join; [|reflexivity|].
  2:{ apply (WireFacts.forallb_impl word); [|exact Hw].
      intros w Hword. now apply WireFacts.plain_parts, WireFacts.word_parts. }
  rewrite !has_join; try reflexivity;
    (apply (WireFacts.forallb_impl word); [|exact Hw]);
    intros w Hword; apply negb_true_iff;
    now apply WireFacts.plain_parts, WireFacts.word_parts.
Qed.

(** A response whose status line is made of any words, read in one chunk:
    the status code is what the coercion makes of the second word. *)
Lemma worded_response_in_one_chunk (version code : string)
    (reason headerLines : list string) :
  forallb word (version :: code :: reason) = true ->
  forallb validHeader headerLines = true ->
  exists headers,
    promise (deliver [Buf.of_string
                        (response (statusLine version code reason) headerLines)])
    = Some (Resolved
              (mkConnect (Num.coerce (Some code))
                         (Text.join reason " ") headers)
              (Buf.of_string (response (statusLine version code reason) headerLines)))
    /\ forall key, key <> Headers.protoKey ->
                   headers !! key = gathered (valuesFor key headerLines).
Proof.
  intros Hwords Hheaders.
  assert (Hplain : forallb plain headerLines = true).
  { apply (WireFacts.forallb_impl validHeader); [|exact Hheaders].
    unfold validHeader. intros l Hl. now apply andb_true_iff in Hl as [Hl _]. }
  assert (Hwf : forallb wellFormed (headerLines ++ [""; ""]) = true).
  { rewrite forallb_app. cbn [forallb wellFormed]. rewrite andb_true_r.
    apply (WireFacts.forallb_impl validHeader); [|exact Hheaders].
    apply WireFacts.validHeader_wellFormed. }
  destruct (HeaderFacts.headerLoop_lookup _ ∅ Hwf) as (headers & Hloop & Hlook & _).
  exists headers. split.
  - rewrite (WireFacts.deliver_one _ (WireFacts.response_terminated _ _)).
    f_equal. unfold settleAt, decode.
    pose proof (words_plain _ Hwords) as Hfirst.
    pose proof (words_split (version :: code :: reason) ltac:(discriminate) Hwords)
      as Hsplit.
    fold (statusLine version code reason) in Hfirst, Hsplit.
    rewrite BufFacts.toString_of_string
      by (apply WireFacts.response_7bit; [exact Hfirst|exact Hplain]).
    rewrite WireFacts.response_split by (try exact Hplain; exact Hfirst).
    assert (Hline : exists c rest, statusLine version code reason = String c rest).
    { unfold statusLine. rewrite join_cons.
      destruct version; [rewrite app_nil|]; rewrite app_cons; eauto. }
    destruct Hline as (c & rest & Hline).
    rewrite Hline in *. rewrite Hsplit.
    cbn [drop].
    change ((version :: code :: reason) !! 1%nat) with (Some code).
    now rewrite Hloop.
  - intros key Hkey. rewrite (Hlook key Hkey).
    rewrite lookup_empty, HeaderFacts.collect_none.
    rewrite HeaderFacts.valuesFor_app. cbn [valuesFor String.eqb].
    now rewrite List.app_nil_r.
Qed.

End DecodeFacts.

(* ===================================================================== *)
(** ** Further properties of the reader *)
(* ===================================================================== *)

Module Coverage.

Import Reader Run Wire Shape ReaderFacts.

(** X1.  While the stream only delivers data, the promise is pending
    exactly when the bytes delivered so far, those the socket held at the
    call included, hold no terminator CR LF CR LF. *)
Theorem pending_iff_no_terminator (chunks : list Buf.Buffer)
    (ds : list (list Buf.Buffer)) :
  promise (run chunks (Readable <$> ds)) = None <->
  Buf.indexOf (List.concat (chunks ++ List.concat ds)) terminator = -1.
Proof.
  rewrite run_readables. split.
  - intros H.
    destruct (Z.eq_dec (Buf.indexOf (List.concat (chunks ++ List.concat ds))
                                    terminator) (-1)) as [E|N]; [exact E|].
    destruct (RunFacts.firstComplete_some (chunks ++ List.concat ds) []
                eq_refl N) as [b Hb].
    rewrite Hb in H. discriminate.
  - intros H. now rewrite (firstComplete_none [] _ H).
Qed.

(** X2.  Once the promise has settled the reader reads nothing more:
    whatever events follow, the value of the promise and the chunks read
    stay as they are, the chunks that arrive stay in the socket in their
    order, and the socket is not destroyed afterwards. *)
Theorem nothing_is_read_after_settling (chunks : list Buf.Buffer)
    (events more : list Event) (v : Settled) :
  promise (run chunks events) = Some v ->
  promise (run chunks (events ++ more)) = Some v /\
  buffers (run chunks (events ++ more)) = buffers (run chunks events) /\
  readable (socket (run chunks (events ++ more)))
  = readable (socket (run chunks events)) ++ delivered more /\
  destroyed (socket (run chunks (events ++ more)))
  = destroyed (socket (run chunks events)).
Proof. apply RunFacts.after_settled. Qed.

Lemma nothing_is_read_after_settling_witness :
  promise (run [Buf.of_string bare]
               ([] ++ [Readable [Buf.of_string sampleTunnel]; Ended]))
  = Some (Resolved (mkConnect (Num.Int 200) "OK" ∅) (Buf.of_string bare)) /\
  buffers (run [Buf.of_string bare]
               ([] ++ [Readable [Buf.of_string sampleTunnel]; Ended]))
  = buffers (run [Buf.of_string bare] []) /\
  readable (socket (run [Buf.of_string bare]
                        ([] ++ [Readable [Buf.of_string sampleTunnel]; Ended])))
  = readable (socket (run [Buf.of_string bare] []))
    ++ delivered [Readable [Buf.of_string sampleTunnel]; Ended] /\
  destroyed (socket (run [Buf.of_string bare]
                         ([] ++ [Readable [Buf.of_string sampleTunnel]; Ended])))
  = destroyed (socket (run [Buf.of_string bare] [])).
Proof.
  apply (nothing_is_read_after_settling [Buf.of_string bare] []
           [Readable [Buf.of_string sampleTunnel]; Ended]
           (Resolved (mkConnect (Num.Int 200) "OK" ∅) (Buf.of_string bare))).
  vm_compute. reflexivity.
Defined.

(** X3.  When the promise has settled in any way but the two rejections
    for an invalid structure, the socket is handed back untouched: it is
    not destroyed, and none of the reader's three listeners is attached. *)
Theorem socket_is_released (chunks : list Buf.Buffer) (events : list Event)
    (v : Settled) :
  promise (run chunks events) = Some v ->
  v <> Rejected MissingStatusLine ->
  (forall header, v <> Rejected (MalformedHeaderLine header)) ->
  destroyed (socket (run chunks events)) = false /\
  onEndListener (socket (run chunks events)) = false /\
  onErrorListener (socket (run chunks events)) = false /\
  readListener (socket (run chunks events)) = false.
Proof.
  intros Hp Hmissing Hbad.
  destruct (run_spec chunks events) as [[_ _ Hread Hdes _ Hoff] _].
  assert (Hset : promise (run chunks events) <> None) by (rewrite Hp; discriminate).
  assert (Halive : destroyed (socket (run chunks events)) = false).
  { destruct (destroyed (socket (run chunks events))); [|reflexivity].
    destruct Hdes as [Hdes _]. destruct (Hdes eq_refl) as [H|[header H]];
      rewrite Hp in H; injection H as ->.
    - now contradiction Hmissing.
    - now contradiction (Hbad header). }
  destruct (Hoff Hset Halive) as [He Herr].
  repeat split; auto.
Qed.

Lemma socket_is_released_witness :
  destroyed (socket (run [Buf.of_string "HTTP/1.1 200"] [Errored "ECONNRESET"]))
  = false /\
  onEndListener (socket (run [Buf.of_string "HTTP/1.1 200"] [Errored "ECONNRESET"]))
  = false /\
  onErrorListener (socket (run [Buf.of_string "HTTP/1.1 200"] [Errored "ECONNRESET"]))
  = false /\
  readListener (socket (run [Buf.of_string "HTTP/1.1 200"] [Errored "ECONNRESET"]))
  = false.
Proof.
  apply (socket_is_released [Buf.of_string "HTTP/1.1 200"] [Errored "ECONNRESET"]
           (Rejected (StreamError "ECONNRESET"))).
  - vm_compute. reflexivity.
  - discriminate.
  - intros header. discriminate.
Defined.

(** X4.  Bytes whose first terminator is their last four bytes settle the
    promise as their decoding says, however they reach the reader: held
    by the socket at the call or delivered later, grouped in any way into
    ['readable'] events, cut anywhere (inside the terminator as well) into
    chunks that are not empty. *)
Theorem header_block_any_delivery (chunks : list Buf.Buffer)
    (ds : list (list Buf.Buffer)) :
  Forall (λ b, b <> []) (chunks ++ List.concat ds) ->
  closes (List.concat (chunks ++ List.concat ds)) ->
  promise (run chunks (Readable <$> ds))
  = Some (settleAt (List.concat (chunks ++ List.concat ds))).
Proof.
  intros Hall Hclose. rewrite run_readables.
  assert (Hne : chunks ++ List.concat ds <> []).
  { intros E. rewrite E in Hclose. destruct Hclose as [Hyes _].
    now apply Hyes. }
  now rewrite (firstComplete_closes (chunks ++ List.concat ds) [] Hne Hall Hclose).
Qed.

Lemma header_block_any_delivery_witness :
  promise (run [Buf.of_string "HTTP/1.1 200"]
               (Readable <$> [[Buf.of_string (" OK" +:+ Text.CRLF +:+ String Text.CR "")];
                              [Buf.of_string (String Text.LF "")]]))
  = Some (settleAt (List.concat
                      ([Buf.of_string "HTTP/1.1 200"]
                       ++ List.concat [[Buf.of_string (" OK" +:+ Text.CRLF +:+ String Text.CR "")];
                                       [Buf.of_string (String Text.LF "")]]))).
Proof.
  apply (header_block_any_delivery [Buf.of_string "HTTP/1.1 200"]
           [[Buf.of_string (" OK" +:+ Text.CRLF +:+ String Text.CR "")];
            [Buf.of_string (String Text.LF "")]]).
  - repeat constructor; discriminate.
  - split; [vm_compute; discriminate|vm_compute; reflexivity].
Defined.

(** X5.  A valid response (a version, a decimal status code, the words of
    a reason; header lines of 7-bit text with a colon; nothing after the
    blank line), delivered in any chunks that are not empty, resolves with
    the value of the code's digits, the reason's words joined by one
    space, a headers object that holds for every key but [__proto__] the
    values of its lines in the order of the lines (one value as a string,
    several as an array), and all the bytes as [buffered]. *)
Theorem valid_response_resolves (version code : string)
    (reason headerLines : list string) (chunks : list Buf.Buffer) :
  validStatus version code reason = true ->
  forallb validHeader headerLines = true ->
  chunks <> [] ->
  Forall (λ b, b <> []) chunks ->
  List.concat chunks
  = Buf.of_string (response (statusLine version code reason) headerLines) ->
  exists headers,
    promise (deliver chunks)
    = Some (Resolved
              (mkConnect (Num.Int (Num.value 10 code))
                         (Text.join reason " ") headers)
              (List.concat chunks))
    /\ headers !! Headers.protoKey = None
    /\ forall key, key <> Headers.protoKey ->
                   headers !! key = gathered (valuesFor key headerLines).
Proof.
  intros Hstatus Hlines Hne Hall Hcat.
  rewrite (WireFacts.valid_response_any_chunking
             version code reason headerLines chunks Hstatus Hlines Hne Hall Hcat).
  rewrite Hcat.
  apply (WireFacts.valid_response_in_one_chunk _ _ _ _ Hstatus Hlines).
Qed.

Lemma valid_response_resolves_witness :
  exists headers,
    promise (deliver [Buf.of_string "HTTP/1.1 407 Proxy Authentication Req";
                      Buf.of_string ("uired" +:+ Text.CRLF +:+ "Via: a" +:+ Text.CRLF
                                     +:+ "via:b" +:+ Text.CRLF +:+ String Text.CR "");
                      Buf.of_string (String Text.LF "")])
    = Some (Resolved
              (mkConnect (Num.Int (Num.value 10 "407"))
                         (Text.join ["Proxy"; "Authentication"; "Required"] " ")
                         headers)
              (List.concat
                 [Buf.of_string "HTTP/1.1 407 Proxy Authentication Req";
                  Buf.of_string ("uired" +:+ Text.CRLF +:+ "Via: a" +:+ Text.CRLF
                                 +:+ "via:b" +:+ Text.CRLF +:+ String Text.CR "");
                  Buf.of_string (String Text.LF "")]))
    /\ headers !! Headers.protoKey = None
    /\ forall key, key <> Headers.protoKey ->
                   headers !! key = gathered (valuesFor key ["Via: a"; "via:b"]).
Proof.
  apply (valid_response_resolves "HTTP/1.1" "407"
           ["Proxy"; "Authentication"; "Required"] ["Via: a"; "via:b"]).
  - vm_compute. reflexivity.
  - vm_compute. reflexivity.
  - discriminate.
  - repeat constructor; discriminate.
  - vm_compute. reflexivity.
Defined.

(** X6.  Every header a valid response declares (a name of 7-bit text
    without a colon, a value of 7-bit text), delivered in any chunks that
    are not empty, is found in the resolved headers under its lower-cased
    name, its value without the leading white space among the values
    stored there, unless the lower-cased name is [__proto__]. *)
Theorem declared_header_is_found (version code : string)
    (reason : list string) (fields : list (string * string))
    (chunks : list Buf.Buffer) :
  validStatus version code reason = true ->
  forallb validField fields = true ->
  chunks <> [] ->
  Forall (λ b, b <> []) chunks ->
  List.concat chunks
  = Buf.of_string (response (statusLine version code reason)
                            (fieldLine <$> fields)) ->
  exists connect,
    promise (deliver chunks) = Some (Resolved connect (List.concat chunks))
    /\ forall name value,
         In (name, value) fields ->
         Text.toLowerCase name <> Headers.protoKey ->
         exists hv, headers connect !! Text.toLowerCase name = Some hv /\
                    In (Text.trimStart value) (values hv).
Proof.
  intros Hstatus Hfields Hne Hall Hcat.
  assert (Hlines : forallb validHeader (fieldLine <$> fields) = true).
  { apply forallb_forall. intros l Hin.
    apply in_map_iff in Hin as (field & <- & Hin).
    rewrite forallb_forall in Hfields.
    now apply WireFacts.fieldLine_valid, Hfields. }
  rewrite (WireFacts.valid_response_any_chunking
             version code reason (fieldLine <$> fields) chunks
             Hstatus Hlines Hne Hall Hcat).
  rewrite Hcat.
  destruct (WireFacts.declared_headers_are_stored _ _ _ _ Hstatus Hfields)
    as (headers & Hp & Hfound).
  eexists. split; [exact Hp|]. exact Hfound.
Qed.

Lemma declared_header_is_found_witness :
  exists connect,
    promise (deliver [Buf.of_string "HTTP/1.1 200 OK";
                      Buf.of_string (Text.CRLF +:+ "Proxy-Agent:  squid  "
                                     +:+ Text.CRLF +:+ Text.CRLF)])
    = Some (Resolved connect
              (List.concat [Buf.of_string "HTTP/1.1 200 OK";
                            Buf.of_string (Text.CRLF +:+ "Proxy-Agent:  squid  "
                                           +:+ Text.CRLF +:+ Text.CRLF)]))
    /\ forall name value,
         In (name, value) [("Proxy-Agent", "  squid  ")] ->
         Text.toLowerCase name <> Headers.protoKey ->
         exists hv, headers connect !! Text.toLowerCase name = Some hv /\
                    In (Text.trimStart value) (values hv).
Proof.
  apply (declared_header_is_found "HTTP/1.1" "200" ["OK"]
           [("Proxy-Agent", "  squid  ")]).
  - vm_compute. reflexivity.
  - vm_compute. reflexivity.
  - discriminate.
  - repeat constructor; discriminate.
  - vm_compute. reflexivity.
Defined.

(** X7.  When the bytes that first complete a header block decode to a
    status line that is not empty, then lines that are empty or hold a
    colon, then a line that is not empty and holds no colon, the promise
    is rejected with the invalid-header error that quotes this line (the
    first such line, whatever follows it) and the socket is destroyed. *)
Theorem first_bad_line_is_reported (chunks : list Buf.Buffer)
    (ds : list (list Buf.Buffer)) (buffered : Buf.Buffer)
    (firstLine bad : string) (good rest : list string) :
  firstComplete [] (chunks ++ List.concat ds) = Some buffered ->
  Text.split (Buf.toString_ascii buffered) Text.CRLF
  = firstLine :: good ++ bad :: rest ->
  firstLine <> "" ->
  forallb wellFormed good = true ->
  bad <> "" ->
  Text.has ":" bad = false ->
  promise (run chunks (Readable <$> ds))
  = Some (Rejected (MalformedHeaderLine bad)) /\
  destroyed (socket (run chunks (Readable <$> ds))) = true.
Proof.
  intros Hfc Hsplit Hfirst Hgood Hbad Hcolon.
  assert (Hp : promise (run chunks (Readable <$> ds))
               = Some (Rejected (MalformedHeaderLine bad))).
  { rewrite run_readables, Hfc. cbn [fmap option_fmap option_map]. f_equal.
    unfold settleAt, decode. rewrite Hsplit.
    destruct firstLine as [|c firstLine]; [contradiction|].
    now rewrite (DecodeFacts.headerLoop_first_bad good bad rest ∅ Hgood Hbad Hcolon). }
  split; [exact Hp|].
  destruct (run_spec chunks (Readable <$> ds)) as [[_ _ _ Hdes _ _] _].
  apply Hdes. right. now exists bad.
Qed.

Lemma first_bad_line_is_reported_witness :
  promise (run [] (Readable <$> [[Buf.of_string "HTTP/1.1 200 OK"];
                                 [Buf.of_string (Text.CRLF +:+ "a: b" +:+ Text.CRLF
                                                 +:+ "foo" +:+ Text.CRLF +:+ "bar"
                                                 +:+ Text.CRLF +:+ Text.CRLF)]]))
  = Some (Rejected (MalformedHeaderLine "foo")) /\
  destroyed (socket (run [] (Readable <$>
                               [[Buf.of_string "HTTP/1.1 200 OK"];
                                [Buf.of_string (Text.CRLF +:+ "a: b" +:+ Text.CRLF
                                                +:+ "foo" +:+ Text.CRLF +:+ "bar"
                                                +:+ Text.CRLF +:+ Text.CRLF)]])))
  = true.
Proof.
  apply (first_bad_line_is_reported []
           [[Buf.of_string "HTTP/1.1 200 OK"];
            [Buf.of_string (Text.CRLF +:+ "a: b" +:+ Text.CRLF
                            +:+ "foo" +:+ Text.CRLF +:+ "bar"
                            +:+ Text.CRLF +:+ Text.CRLF)]]
           (Buf.of_string ("HTTP/1.1 200 OK" +:+ Text.CRLF +:+ "a: b" +:+ Text.CRLF
                           +:+ "foo" +:+ Text.CRLF +:+ "bar"
                           +:+ Text.CRLF +:+ Text.CRLF))
           "HTTP/1.1 200 OK" "foo" ["a: b"] ["bar"; ""; ""]).
  - vm_compute. reflexivity.
  - vm_compute. reflexivity.
  - discriminate.
  - vm_compute. reflexivity.
  - discriminate.
  - vm_compute. reflexivity.
Defined.

(** X8.  While the stream only delivers data, the promise is rejected
    with the missing-status-line error exactly when the bytes that first
    complete a header block begin, once decoded, with CR LF: an empty
    line before the status line is not skipped. *)
Theorem missing_status_line_iff (chunks : list Buf.Buffer)
    (ds : list (list Buf.Buffer)) :
  promise (run chunks (Readable <$> ds)) = Some (Rejected MissingStatusLine) <->
  exists buffered,
    firstComplete [] (chunks ++ List.concat ds) = Some buffered /\
    Text.startsWith Text.CRLF (Buf.toString_ascii buffered) = true.
Proof.
  rewrite run_readables. split.
  - intros H.
    destruct (firstComplete [] (chunks ++ List.concat ds)) as [b|] eqn:Hb;
      [|discriminate].
    exists b. split; [reflexivity|].
    cbn [fmap option_fmap option_map] in H. injection H as H.
    unfold settleAt in H.
    destruct (decode b) as [err|connect] eqn:Hd; [|discriminate].
    injection H as ->.
    apply DecodeFacts.decode_missing_iff in Hd as [Hempty|Hstart];
      [|exact Hstart].
    pose proof (RunFacts.firstComplete_complete _ _ _ Hb) as Hdone.
    destruct b; [now contradiction Hdone|discriminate].
  - intros (b & -> & Hstart). cbn [fmap option_fmap option_map]. f_equal.
    unfold settleAt.
    now rewrite (proj2 (DecodeFacts.decode_missing_iff b) (or_intror Hstart)).
Qed.

(** X9.  In every run, the headers of a resolved promise have this shape:
    every key is in lower case and is not [__proto__], no stored value
    begins with white space, and an array holds two values or more. *)
Theorem resolved_headers_shape (chunks : list Buf.Buffer) (events : list Event)
    (connect : ConnectResponse) (buffered : Buf.Buffer) :
  promise (run chunks events) = Some (Resolved connect buffered) ->
  shaped (headers connect).
Proof.
  intros H. destruct (run_spec chunks events) as [[_ _ _ _ Hres _] _].
  destruct (Hres connect buffered H) as [_ Hd].
  exact (DecodeFacts.decode_shaped buffered connect Hd).
Qed.

Lemma resolved_headers_shape_witness :
  shaped (headers (mkConnect (Num.Int 200) "OK"
                             (<[ "via" := Headers.Arr ["a"; "b"; "c"] ]> ∅))).
Proof.
  apply (resolved_headers_shape [Buf.of_string thrice] [Ended]
           (mkConnect (Num.Int 200) "OK" (<[ "via" := Headers.Arr ["a"; "b"; "c"] ]> ∅))
           (Buf.of_string thrice)).
  vm_compute. reflexivity.
Defined.

(** X10.  A rejection is one of four: the end-of-stream error, and then
    the stream had emitted ['end']; the error object of an ['error'] event
    the stream had emitted; the missing-status-line error; or an
    invalid-header error. *)
Theorem rejections_are_of_four_kinds (chunks : list Buf.Buffer)
    (events : list Event) (reason : Error) :
  promise (run chunks events) = Some (Rejected reason) ->
  (reason = PrematureEnd /\ In Ended events) \/
  (exists err, reason = StreamError err /\ In (Errored err) events) \/
  reason = MissingStatusLine \/
  (exists header, reason = MalformedHeaderLine header).
Proof.
  intros H.
  destruct (RunFacts.settled_origin chunks events _ H)
    as [(b & _ & Hb)|[[Hv Hin]|(err & Hv & Hin)]].
  - unfold settleAt in Hb. destruct (decode b) as [e|c] eqn:Hd; [|discriminate].
    injection Hb as ->.
    destruct (decode_error _ _ Hd) as [->|[header ->]]; eauto.
  - injection Hv as ->. now left.
  - injection Hv as ->. right. left. eauto.
Qed.

Lemma rejections_are_of_four_kinds_witness :
  (StreamError "EPIPE" = PrematureEnd /\
   In Ended [Readable [Buf.of_string "HTTP"]; Errored "EPIPE"; Ended]) \/
  (exists err, StreamError "EPIPE" = StreamError err /\
               In (Errored err) [Readable [Buf.of_string "HTTP"]; Errored "EPIPE"; Ended]) \/
  StreamError "EPIPE" = MissingStatusLine \/
  (exists header, StreamError "EPIPE" = MalformedHeaderLine header).
Proof.
  apply (rejections_are_of_four_kinds []
           [Readable [Buf.of_string "HTTP"]; Errored "EPIPE"; Ended]).
  vm_compute. reflexivity.
Defined.

(** X11.  A ['readable'] event at which the socket has nothing to read
    changes nothing, wherever it occurs: the run is the same as without
    it. *)
Theorem empty_readable_changes_nothing (chunks : list Buf.Buffer)
    (events more : list Event) :
  run chunks (events ++ Readable [] :: more) = run chunks (events ++ more).
Proof.
  rewrite !RunFacts.run_app. cbn [fold_left].
  destruct (run_spec chunks events) as [Hc _].
  now rewrite (RunFacts.emit_nothing _ Hc).
Qed.

(** X12.  While the stream only delivers data, the promise depends on
    the sequence of the values [socket.read()] returned alone: not on
    whether a value was returned during the call or at a later
    ['readable'] event, and not on how many values one event brought.
    (How the stream cuts its bytes into these values does matter, and a
    stream in byte mode returns all the bytes it holds as one value.) *)
Theorem outcome_follows_read_results (chunks : list Buf.Buffer)
    (ds : list (list Buf.Buffer)) :
  promise (run chunks (Readable <$> ds))
  = promise (deliver (chunks ++ List.concat ds)).
Proof.
  rewrite run_readables.
  rewrite deliver_promise.
  reflexivity.
Qed.

(** X13.  A status line whose second word is empty (the version followed
    by a space and nothing more, or by two spaces and the reason) resolves
    with the status code 0. *)
Theorem empty_status_code_is_zero (version : string)
    (reason headerLines : list string) :
  word version = true ->
  forallb word reason = true ->
  forallb validHeader headerLines = true ->
  exists headers,
    promise (deliver [Buf.of_string
                        (response (statusLine version "" reason) headerLines)])
    = Some (Resolved
              (mkConnect (Num.Int 0) (Text.join reason " ") headers)
              (Buf.of_string (response (statusLine version "" reason) headerLines))).
Proof.
  intros Hversion Hreason Hlines.
  assert (Hwords : forallb word (version :: "" :: reason) = true).
  { cbn [forallb]. rewrite Hversion, Hreason. reflexivity. }
  destruct (DecodeFacts.worded_response_in_one_chunk version "" reason headerLines
              Hwords Hlines) as (headers & Hp & _).
  exists headers. exact Hp.
Qed.

Lemma empty_status_code_is_zero_witness :
  exists headers,
    promise (deliver [Buf.of_string
                        (response (statusLine "HTTP/1.1" "" []) ["a:b"])])
    = Some (Resolved
              (mkConnect (Num.Int 0) (Text.join [] " ") headers)
              (Buf.of_string (response (statusLine "HTTP/1.1" "" []) ["a:b"]))).
Proof.
  apply (empty_status_code_is_zero "HTTP/1.1" [] ["a:b"]);
    vm_compute; reflexivity.
Defined.


(** X15.  In every run the length the reader keeps is the length of the
    chunks it has read, so the [Buffer.concat] of line 56 neither cuts
    nor pads: it gives the chunks read, one after the other. *)
Theorem concat_is_exact (chunks : list Buf.Buffer) (events : list Event) :
  buffersLength (run chunks events)
  = length (List.concat (buffers (run chunks events))) /\
  Buf.concat (buffers (run chunks events)) (buffersLength (run chunks events))
  = List.concat (buffers (run chunks events)).
Proof.
  destruct (run_spec chunks events) as [[Hlen _ _ _ _ _] _].
  split; [exact Hlen|]. rewrite Hlen. apply BufFacts.concat_exact.
Qed.

(** X16.  After an ['end'] or an ['error'] event of the stream the
    promise is never pending. *)
Theorem end_or_error_always_settles (chunks : list Buf.Buffer)
    (events : list Event) :
  In Ended events \/ (exists err, In (Errored err) events) ->
  exists v, promise (run chunks events) = Some v.
Proof.
  intros H.
  assert (Hev : exists ev, In ev events /\ chunksOf ev = [] /\ ev <> Readable []).
  { destruct H as [H|[err H]]; eexists; (split; [exact H|]);
      split; try reflexivity; discriminate. }
  destruct Hev as (ev & Hin & Hnone & Hne).
  apply in_split in Hin as (l1 & l2 & ->).
  destruct (run_spec chunks l1) as [Hc _].
  destruct (RunFacts.emit_closing _ ev Hc Hnone Hne) as [v Hv].
  exists v.
  change (l1 ++ ev :: l2) with (l1 ++ [ev] ++ l2).
  rewrite List.app_assoc.
  apply settled_for_good. now rewrite run_snoc.
Qed.

Lemma end_or_error_always_settles_witness :
  exists v, promise (run [Buf.of_string "HTTP/1.1 200 OK"]
                         [Readable []; Ended; Readable [Buf.of_string blank]])
            = Some v.
Proof.
  apply (end_or_error_always_settles [Buf.of_string "HTTP/1.1 200 OK"]
           [Readable []; Ended; Readable [Buf.of_string blank]]).
  left. right. left. reflexivity.
Defined.

(** X17.  The promise never resolves before a terminator has been read:
    in every run, the bytes a resolved promise carries hold CR LF CR LF,
    and the response it carries is their decoding. *)
Theorem resolved_only_with_terminator (chunks : list Buf.Buffer)
    (events : list Event) (connect : ConnectResponse) (buffered : Buf.Buffer) :
  promise (run chunks events) = Some (Resolved connect buffered) ->
  0 <= Buf.indexOf buffered terminator /\
  decode buffered = inr connect.
Proof.
  intros H.
  destruct (run_spec chunks events) as [[_ _ _ _ Hres _] _].
  destruct (Hres connect buffered H) as [_ Hd]. split; [|exact Hd].
  destruct (RunFacts.settled_origin chunks events _ H)
    as [(b & Hdone & Hb)|[[Hv _]|(err & Hv & _)]]; try discriminate.
  apply eq_sym, settleAt_resolved in Hb.
  assert (b = buffered) as <- by (now destruct Hb).
  pose proof (BufFacts.index_bytes_lower b (Buf.of_string terminator)) as Hrange.
  unfold Buf.indexOf in *. lia.
Qed.

Lemma resolved_only_with_terminator_witness :
  0 <= Buf.indexOf (Buf.of_string bare) terminator /\
  decode (Buf.of_string bare) = inr (mkConnect (Num.Int 200) "OK" ∅).
Proof.
  apply (resolved_only_with_terminator [Buf.of_string bare] []).
  vm_compute. reflexivity.
Defined.

End Coverage.
